(** * EarthMC API client: rate limiter and request executor

    A shallow embedding of [src/index.ts] (class [EarthMC]) and the
    properties of its rate limiter ([rateLimit]), its request executor
    ([get]) and its endpoint methods.

    Conventions of the embedding.
    - A JavaScript [number] that holds a millisecond timestamp, a duration,
      a count or an HTTP status is a [Z]; a coordinate or a radius, which
      may be fractional, is a rational [Q] (every finite double is one).
    - The instance fields, the objects allocated with [new URL(...)], the
      wall clock and the traffic with the outside live in one [World]; a
      method is a [Task], a function from worlds to a completion and a
      world.  [await] is sequencing: the model is the single-caller,
      sequential reading of the code.
    - What the outside decides (the answer and the duration of each network
      call, the digits [Math.random] yields) is read from an [Env]. *)

From stdpp Require Import base numbers list strings gmap pretty sorting.
From Stdlib Require Import Ascii QArith Qround Lqa.

Local Open Scope Z_scope.

(** ** Values *)

(** A thrown JavaScript value: an [Error] with its [name] and [message]. *)
Record Exn := { exn_name : string; exn_message : string }.

(** What [fetch] resolves to.  [json] is the parsed body, [None] when the
    body is not JSON and [response.json()] rejects. *)
Record Response := { status : Z; json : option string }.

Inductive FetchOutcome :=
| Resolved (r : Response)
| Rejected (e : Exn).

(** A [URL] object: the address without its query, and the entries of
    [url.searchParams] in order. *)
Record URL := { href : string; searchParams : list (string * string) }.

Global Instance URL_inhabited : Inhabited URL :=
  populate {| href := ""; searchParams := [] |}.

(** [{ timestamp: number }] *)
Record RequestRecord := { timestamp : Z }.

(** The fields of an [EarthMC] instance ([BASE_URL] is a constant). *)
Record EarthMC := {
  serverStr : string;
  requestQueue : list RequestRecord;
  maxRequestsPerWindow : Z;
  windowSize : Z
}.

Definition BASE_URL : string := "https://api.earthmc.net/v3".

(** [Number.MAX_SAFE_INTEGER] *)
Definition MAX_SAFE_INTEGER : Z := 2 ^ 53 - 1.

(** The constructor's [options] argument; every field is optional. *)
Record Options := {
  opt_server : option string;
  opt_maxRequestsPerWindow : option Z;
  opt_windowSize : option Z
}.

(** ** The world *)

Definition loc := nat.

(** One network call: the address and the headers handed to [fetch], and
    what came back. *)
Record Exchange := {
  requested : string;
  headers : list (string * string);
  outcome : FetchOutcome
}.

Record World := {
  this : EarthMC;            (* the client instance *)
  heap : gmap loc URL;       (* the URL objects allocated so far *)
  clock : Z;                 (* what Date.now() returns *)
  draws : nat;               (* calls to Math.random() so far *)
  net : list Exchange;       (* network calls so far, oldest first *)
  timers : list Z;           (* delays handed to setTimeout, oldest first *)
  console : list string      (* lines written by console.log *)
}.

Record Env := {
  fetch_outcome : nat → string → FetchOutcome; (* k-th call, address *)
  fetch_latency : nat → Z;                     (* ms the k-th call takes *)
  random_digits : nat → string  (* Math.random().toPrecision(2), k-th draw *)
}.

Definition set_this (f : EarthMC → EarthMC) (w : World) : World :=
  {| this := f (this w); heap := heap w; clock := clock w; draws := draws w;
     net := net w; timers := timers w; console := console w |}.
Definition set_heap (f : gmap loc URL → gmap loc URL) (w : World) : World :=
  {| this := this w; heap := f (heap w); clock := clock w; draws := draws w;
     net := net w; timers := timers w; console := console w |}.
Definition set_clock (f : Z → Z) (w : World) : World :=
  {| this := this w; heap := heap w; clock := f (clock w); draws := draws w;
     net := net w; timers := timers w; console := console w |}.
Definition set_draws (f : nat → nat) (w : World) : World :=
  {| this := this w; heap := heap w; clock := clock w; draws := f (draws w);
     net := net w; timers := timers w; console := console w |}.
Definition set_net (f : list Exchange → list Exchange) (w : World) : World :=
  {| this := this w; heap := heap w; clock := clock w; draws := draws w;
     net := f (net w); timers := timers w; console := console w |}.
Definition set_timers (f : list Z → list Z) (w : World) : World :=
  {| this := this w; heap := heap w; clock := clock w; draws := draws w;
     net := net w; timers := f (timers w); console := console w |}.
Definition set_console (f : list string → list string) (w : World) : World :=
  {| this := this w; heap := heap w; clock := clock w; draws := draws w;
     net := net w; timers := timers w; console := f (console w) |}.

Definition set_requestQueue (q : list RequestRecord) (o : EarthMC) : EarthMC :=
  {| serverStr := serverStr o; requestQueue := q;
     maxRequestsPerWindow := maxRequestsPerWindow o;
     windowSize := windowSize o |}.

(** ** Tasks *)

(** How a task ends: with a value, with a thrown value, or, for the one
    recursive method, because the model's recursion budget ran out
    ([get_total] shows that [get] never ends that way). *)
Inductive Completion (A : Type) :=
| Normal (a : A)
| Throw (e : Exn)
| OutOfFuel.
Arguments Normal {A} a.
Arguments Throw {A} e.
Arguments OutOfFuel {A}.

Definition Task (A : Type) : Type := World → Completion A * World.

Global Instance Task_ret : MRet Task := λ A a w, (Normal a, w).
Global Instance Task_bind : MBind Task := λ A B f m w,
  match m w with
  | (Normal a, w') => f a w'
  | (Throw e, w') => (Throw e, w')
  | (OutOfFuel, w') => (OutOfFuel, w')
  end.

Definition throw {A} (e : Exn) : Task A := λ w, (Throw e, w).
Definition out_of_fuel {A} : Task A := λ w, (OutOfFuel, w).

(** [try { body } catch (error) { handler(error) }] *)
Definition try_catch {A} (body : Task A) (handler : Exn → Task A) : Task A :=
  λ w, match body w with
       | (Throw e, w') => handler e w'
       | r => r
       end.

Definition gets {A} (f : World → A) : Task A := λ w, (Normal (f w), w).
Definition modify (f : World → World) : Task unit := λ w, (Normal tt, f w).

(** Reading a property of [undefined]. *)
Definition TypeError_undefined (prop : string) : Exn :=
  {| exn_name := "TypeError";
     exn_message := "Cannot read properties of undefined (reading '" +:+ prop +:+ "')" |}.

Definition SyntaxError_json : Exn :=
  {| exn_name := "SyntaxError"; exn_message := "Unexpected token in JSON" |}.

(** ** Serialising a URL *)

(** The characters [URLSearchParams] leaves as they are: ASCII letters and
    digits and [* - . _]. *)
Definition urlencoded_plain (c : ascii) : bool :=
  let n := nat_of_ascii c in
  ((48 <=? n) && (n <=? 57) || (65 <=? n) && (n <=? 90)
   || (97 <=? n) && (n <=? 122) || (n =? 42) || (n =? 45) || (n =? 46)
   || (n =? 95))%nat.

Definition hex_digit (n : nat) : ascii :=
  ascii_of_nat (if (n <? 10)%nat then 48 + n else 55 + n)%nat.

(** application/x-www-form-urlencoded: a space becomes [+], every other
    byte outside the plain set becomes [%XX]. *)
Fixpoint urlencode (s : string) : string :=
  match s with
  | EmptyString => EmptyString
  | String c s' =>
      let n := nat_of_ascii c in
      if bool_decide (n = 32%nat) then String "+" (urlencode s')
      else if urlencoded_plain c then String c (urlencode s')
      else String "%" (String (hex_digit (n / 16)) (String (hex_digit (n mod 16))
             (urlencode s')))
  end.

Definition URLSearchParams_toString (ps : list (string * string)) : string :=
  String.concat "&" (map (λ p, urlencode p.1 +:+ "=" +:+ urlencode p.2) ps).

(** [url.toString()].  The addresses this client builds have no query of
    their own, so the query is the serialised [searchParams]. *)
Definition URL_toString (u : URL) : string :=
  match searchParams u with
  | [] => href u
  | ps => href u +:+ "?" +:+ URLSearchParams_toString ps
  end.

(** [url.searchParams.append(name, value)] on the object itself. *)
Definition URL_append (name value : string) (u : URL) : URL :=
  {| href := href u; searchParams := searchParams u ++ [(name, value)] |}.

(** ** Numbers *)

(** [Math.round]: the nearest integer, a tie going towards +∞. *)
Definition Math_round (x : Q) : Z := Qfloor (x + (1 # 2))%Q.

(** [n.toString()] for an integer [n]: decimal digits, a leading [-].
    This is what JavaScript prints for the safe integers, up to
    [MAX_SAFE_INTEGER] in absolute value; beyond, it prints the shortest
    digits that read back as the same double, and an exponent from 10^21
    on.  Millisecond timestamps and rounded coordinates are safe
    integers. *)
Definition Number_toString (n : Z) : string := pretty n.

(** The longest delay a timer takes: [2^31 - 1] ms. *)
Definition TIMEOUT_MAX : Z := 2 ^ 31 - 1.

(** The time after which [setTimeout(f, ms)] runs [f]: [ms] itself, and
    1 ms when [ms] is below 1 or above [TIMEOUT_MAX]. *)
Definition timer_delay (ms : Z) : Z :=
  if bool_decide (1 <= ms <= TIMEOUT_MAX) then ms else 1.

(** [`${now}~${rnd}`], the value of the [no-cache-please] parameter. *)
Definition cache_buster (now : Z) (rnd : string) : string :=
  Number_toString now +:+ "~" +:+ rnd.

(** ** The class *)

Section Client.
Context (env : Env).

(** *** The host environment *)

Definition Date_now : Task Z := gets clock.

(** [await new Promise((resolve) => setTimeout(resolve, ms))]: the delay
    is handed to the timer and the caller resumes when the timer fires,
    [timer_delay ms] later. *)
Definition sleep (ms : Z) : Task unit :=
  modify (λ w, set_clock (λ t, t + timer_delay ms) (set_timers (λ l, l ++ [ms]) w)).

(** [Math.random().toPrecision(2)] *)
Definition Math_random_toPrecision2 : Task string :=
  λ w, (Normal (random_digits env (draws w)), set_draws S w).

Definition console_log (line : string) : Task unit :=
  modify (set_console (λ l, l ++ [line])).

(** [await fetch(address, { headers })]: the call is recorded, takes the
    time the environment says, and resolves or rejects as the environment
    says. *)
Definition fetch (address : string) (hs : list (string * string)) : Task Response :=
  λ w,
    let k := length (net w) in
    let o := fetch_outcome env k address in
    let w' := set_clock (λ t, t + fetch_latency env k)
                (set_net (λ l, l ++ [{| requested := address; headers := hs;
                                        outcome := o |}]) w) in
    match o with
    | Resolved r => (Normal r, w')
    | Rejected e => (Throw e, w')
    end.

(** [await response.json()] *)
Definition Response_json (r : Response) : Task string :=
  match json r with
  | Some j => mret j
  | None => throw SyntaxError_json
  end.

(** [new URL(s)]: a fresh object.  The strings this client passes are
    already in the form the parser returns. *)
Definition new_URL (s : string) : Task loc :=
  λ w, let l := fresh (dom (heap w)) in
       (Normal l, set_heap (insert l {| href := s; searchParams := [] |}) w).

Definition searchParams_append (url : loc) (name value : string) : Task unit :=
  modify (set_heap (λ h, <[url := URL_append name value (h !!! url)]> h)).

Definition toString (url : loc) : Task string :=
  gets (λ w, URL_toString (heap w !!! url)).

(** *** [constructor] *)

Definition constructor (options : option Options) : EarthMC :=
  {| serverStr := "aurora";
     requestQueue := [];
     maxRequestsPerWindow :=
       default MAX_SAFE_INTEGER (options ≫= opt_maxRequestsPerWindow);
     windowSize := default 300000 (options ≫= opt_windowSize) |}.

(** *** [rateLimit] *)

Definition rateLimit : Task unit :=
  now ← Date_now;
  modify (set_this (λ o,
    set_requestQueue
      (filter (λ req, timestamp req + windowSize o > now) (requestQueue o)) o));;
  o ← gets this;
  (if bool_decide (Z.of_nat (length (requestQueue o)) >= maxRequestsPerWindow o)
   then
     match requestQueue o !! 0%nat with
     | Some oldest =>
         let timeToWait := timestamp oldest + windowSize o - now in
         sleep timeToWait
     | None => throw (TypeError_undefined "timestamp")
     end
   else mret tt);;
  modify (set_this (λ o,
    set_requestQueue (requestQueue o ++ [{| timestamp := now |}]) o)).

(** *** [get] *)

Fixpoint get_rec (fuel : nat) (url : loc) (retryCount : Z) : Task Response :=
  rateLimit;;
  now ← Date_now;
  rnd ← Math_random_toPrecision2;
  searchParams_append url "no-cache-please" (cache_buster now rnd);;
  try_catch
    (address ← toString url;
     response ← fetch address [("X-Origin", "celerry")];
     if bool_decide (status response = 504) && bool_decide (retryCount > 0)
     then
       console_log "Encountered 504 Gateway Timeout. Retrying...";;
       match fuel with
       | S fuel' => get_rec fuel' url (retryCount - 1)
       | O => out_of_fuel
       end
     else mret response)
    (λ error, throw error).

(** The recursion of [get] stops when [retryCount] is no longer
    positive, so [Z.to_nat retryCount] nested calls are all it makes. *)
Definition get (url : loc) (retryCount : Z) : Task Response :=
  get_rec (Z.to_nat retryCount) url retryCount.

(** The default of [get]'s second parameter. *)
Definition default_retryCount : Z := 3.

(** *** Endpoint methods

    Each returns the parsed body; the typed shapes of the bodies
    ([DiscordResponse], [TownResponse], ...) are declarations only. *)

(** [new URL(`${this.BASE_URL}/${this.serverStr}/<resource>`)] *)
Definition resource_URL (resource : string) : Task loc :=
  o ← gets this;
  new_URL (BASE_URL +:+ "/" +:+ serverStr o +:+ "/" +:+ resource).

(** [ids.join(",")] *)
Definition join (sep : string) (l : list string) : string := String.concat sep l.

Definition discord (ids : list string) : Task string :=
  url ← resource_URL "discord";
  searchParams_append url "query" (join "," ids);;
  response ← get url default_retryCount;
  Response_json response.

Definition location (locations : list (Q * Q)) : Task string :=
  url ← resource_URL "location";
  let query :=
    map (λ location : Q * Q,
           Number_toString (Math_round location.1) +:+ ";"
           +:+ Number_toString (Math_round location.2)) locations in
  searchParams_append url "query" (join "," query);;
  response ← get url default_retryCount;
  Response_json response.

Definition nations : Task string :=
  url ← resource_URL "nations";
  response ← get url default_retryCount;
  Response_json response.

Definition nation (ids : list string) : Task string :=
  url ← resource_URL "nations";
  searchParams_append url "query" (join "," ids);;
  response ← get url default_retryCount;
  Response_json response.

Definition towns : Task string :=
  url ← resource_URL "towns";
  response ← get url default_retryCount;
  Response_json response.

Definition town (ids : list string) : Task string :=
  url ← resource_URL "towns";
  searchParams_append url "query" (join "," ids);;
  response ← get url default_retryCount;
  Response_json response.

Definition nearbyTown (town : string) (radius : Q) : Task string :=
  url ← resource_URL "towns";
  searchParams_append url "town" town;;
  searchParams_append url "radius" (Number_toString (Math_round radius));;
  response ← get url default_retryCount;
  Response_json response.

Definition nearbyCoord (coords : Q * Q) (radius : Q) : Task string :=
  url ← resource_URL "towns";
  searchParams_append url "x" (Number_toString (Math_round coords.1));;
  searchParams_append url "z" (Number_toString (Math_round coords.2));;
  searchParams_append url "radius" (Number_toString (Math_round radius));;
  response ← get url default_retryCount;
  Response_json response.

Definition players : Task string :=
  url ← resource_URL "players";
  response ← get url default_retryCount;
  Response_json response.

Definition player (ids : list string) : Task string :=
  url ← resource_URL "players";
  searchParams_append url "query" (join "," ids);;
  response ← get url default_retryCount;
  Response_json response.

Definition quarters : Task string :=
  url ← resource_URL "quarters";
  response ← get url default_retryCount;
  Response_json response.

Definition quarter (ids : list string) : Task string :=
  url ← resource_URL "quarters";
  searchParams_append url "query" (join "," ids);;
  response ← get url default_retryCount;
  Response_json response.

Definition server : Task string :=
  url ← resource_URL "";
  response ← get url default_retryCount;
  Response_json response.

(** *** Sequential use

    [gaps] lists, for each call in turn, the time that passes between
    the previous call's return and this call; each call starts only
    after the previous one has resolved.  The result lists the instant
    at which each call was let through. *)
Definition elapse (ms : Z) : Task unit := modify (set_clock (λ t, t + ms)).

Fixpoint sequential_rateLimit (gaps : list Z) : Task (list Z) :=
  match gaps with
  | [] => mret []
  | gap :: gaps' =>
      elapse gap;;
      rateLimit;;
      t ← Date_now;
      ts ← sequential_rateLimit gaps';
      mret (t :: ts)
  end.

End Client.

(** * Vocabulary of the properties *)

(** A world for a newly constructed client, at time [t0]. *)
Definition fresh_world (o : EarthMC) (t0 : Z) : World :=
  {| this := o; heap := ∅; clock := t0; draws := 0; net := [];
     timers := []; console := [] |}.

(** ** The rate limiter *)

(** The records [rateLimit] keeps at time [clock w]: line 90's filter. *)
Definition kept (w : World) : list RequestRecord :=
  filter (λ req, timestamp req + windowSize (this w) > clock w)
         (requestQueue (this w)).

(** The pruning step as the specification words it: drop every record
    whose [timestamp + windowSize <= now]. *)
Definition prune_by_spec (now W : Z) (q : list RequestRecord) : list RequestRecord :=
  filter (λ req, ¬ (timestamp req + W <= now)) q.

(** The world once the call has been let through: the queue is the kept
    records followed by a record stamped [clock w], the reading taken on
    entry; [waited] is what the timer added to the clock. *)
Definition let_through (w : World) (delays : list Z) (waited : Z) : World :=
  {| this := set_requestQueue (kept w ++ [{| timestamp := clock w |}]) (this w);
     heap := heap w; clock := clock w + waited; draws := draws w;
     net := net w; timers := timers w ++ delays; console := console w |}.

(** The number of instants of [instants] inside the trailing window of
    duration [W] that ends at [t]. *)
Definition admitted_within (W t : Z) (instants : list Z) : nat :=
  length (filter (λ x, t - W < x ∧ x <= t) instants).

(** ** The request executor *)

Section Attempts.
Context (env : Env).

(** One attempt of [get], from a world in which [rateLimit] has just
    returned: the parameter value it appends, the address it requests,
    what the network answers, and the world it leaves. *)
Definition attempt_value (w1 : World) : string :=
  cache_buster (clock w1) (random_digits env (draws w1)).

Definition attempt_address (url : loc) (w1 : World) : string :=
  URL_toString (URL_append "no-cache-please" (attempt_value w1) (heap w1 !!! url)).

Definition attempt_outcome (url : loc) (w1 : World) : FetchOutcome :=
  fetch_outcome env (length (net w1)) (attempt_address url w1).

Definition after_fetch (url : loc) (w1 : World) : World :=
  {| this := this w1;
     heap := <[url := URL_append "no-cache-please" (attempt_value w1) (heap w1 !!! url)]>
               (heap w1);
     clock := clock w1 + fetch_latency env (length (net w1));
     draws := S (draws w1);
     net := net w1 ++ [{| requested := attempt_address url w1;
                          headers := [("X-Origin", "celerry")];
                          outcome := attempt_outcome url w1 |}];
     timers := timers w1;
     console := console w1 |}.

(** What [get] does after an attempt that resolved with [response]. *)
Definition after_response (fuel : nat) (url : loc) (retryCount : Z)
    (response : Response) : Task Response :=
  if bool_decide (status response = 504) && bool_decide (retryCount > 0)
  then
    console_log "Encountered 504 Gateway Timeout. Retrying...";;
    match fuel with
    | S fuel' => get_rec env fuel' url (retryCount - 1)
    | O => out_of_fuel
    end
  else mret response.

(** Every network call answers 504. *)
Definition always_504 : Prop :=
  ∀ k address, ∃ response,
    fetch_outcome env k address = Resolved response ∧ status response = 504.

(** [u] with the values [vs] appended as [no-cache-please] parameters. *)
Definition with_cache_busters (u : URL) (vs : list string) : URL :=
  {| href := href u;
     searchParams := searchParams u ++ map (pair "no-cache-please") vs |}.

(** The values one run of [get] generates, from the clock readings [ts]
    of its attempts: the k-th uses the k-th draw of [Math.random]. *)
Definition generated (w : World) (ts : list Z) : list string :=
  imap (λ k t, cache_buster t (random_digits env (draws w + k))) ts.

(** The address the k-th attempt (counted from 1) requests. *)
Definition kth_address (u : URL) (vs : list string) (k : nat) : string :=
  URL_toString (with_cache_busters u (take k vs)).

(** [ts] are the clock readings of the attempts of a run from [w] to
    [w']: the URL object ends with one more parameter per attempt, the
    k-th attempt requested the address with the first k of them, and
    between two attempts the clock moved by at least the time the
    network call took. *)
Definition attempts_of (url : loc) (w w' : World) (ts : list Z) : Prop :=
  let u := heap w !!! url in
  let vs := generated w ts in
  heap w' !!! url = with_cache_busters u vs
  ∧ (∃ new, net w' = net w ++ new
            ∧ requested <$> new = kth_address u vs <$> seq 1 (length ts))
  ∧ (∀ t, ts !! 0%nat = Some t → clock w <= t)
  ∧ (∀ k t t', ts !! k = Some t → ts !! S k = Some t' →
               t + fetch_latency env (length (net w) + k) <= t').

End Attempts.

(** ** Strings and addresses *)

(** The character [c] occurs in [s]. *)
Fixpoint occurs (c : ascii) (s : string) : Prop :=
  match s with
  | EmptyString => False
  | String c' s' => c = c' ∨ occurs c s'
  end.

(** The values of the [no-cache-please] parameters of [u], in order. *)
Definition cache_busters (u : URL) : list string :=
  (filter (λ p, p.1 = "no-cache-please") (searchParams u)).*2.

(** ** Trial runs *)

Definition quiet_env : Env :=
  {| fetch_outcome := λ _ _, Resolved {| status := 200; json := Some "[]" |};
     fetch_latency := λ _, 40;
     random_digits := λ _, "0.53" |}.

Definition limited (q w : Z) : EarthMC :=
  constructor (Some {| opt_server := None; opt_maxRequestsPerWindow := Some q;
                       opt_windowSize := Some w |}).

Definition gateway_timeout : Response := {| status := 504; json := None |}.

(** Every call is answered 504 after 30 s. *)
Definition gateway_down : Env :=
  {| fetch_outcome := λ _ _, Resolved gateway_timeout;
     fetch_latency := λ _, 30000;
     random_digits := λ k, nth k ["0.53"; "0.071"; "0.98"; "0.22"] "0.50" |}.

(** The first call is answered 504 and the second 200, each within the
    millisecond, and [Math.random] yields the same digits twice. *)
Definition same_millisecond : Env :=
  {| fetch_outcome := λ k _,
       match k with
       | O => Resolved gateway_timeout
       | _ => Resolved {| status := 200; json := Some "[]" |}
       end;
     fetch_latency := λ _, 0;
     random_digits := λ _, "0.53" |}.

(** The first call is answered 504, the second fails in transit. *)
Definition fetch_failed : Exn :=
  {| exn_name := "TypeError"; exn_message := "fetch failed" |}.

Definition connection_lost : Env :=
  {| fetch_outcome := λ k _,
       match k with
       | O => Resolved gateway_timeout
       | _ => Rejected fetch_failed
       end;
     fetch_latency := λ _, 25;
     random_digits := λ _, "0.53" |}.

(** A client at time [t0] that has just built the address of [towns]. *)
Definition towns_request (o : EarthMC) (t0 : Z) : World :=
  (new_URL (BASE_URL +:+ "/aurora/towns") (fresh_world o t0)).2.

(** The doubles that the literals [12.6], [-3.4] and [5.7] denote. *)
Definition double_12_6 : Q := 7093169413108531 # 562949953421312.
Definition double_minus_3_4 : Q := -7656119366529843 # 2251799813685248.
Definition double_5_7 : Q := 6417629469002957 # 1125899906842624.

(** ** The queue as a history *)

Definition stamped_before (a b : RequestRecord) : Prop :=
  timestamp a <= timestamp b.

(** The records are in the order of their stamps, and none is stamped
    later than the clock reads. *)
Definition queue_in_order (w : World) : Prop :=
  StronglySorted stamped_before (requestQueue (this w))
  ∧ Forall (λ req, timestamp req <= clock w) (requestQueue (this w)).

(** ** The runs of [get] *)

Definition retry_notice : string := "Encountered 504 Gateway Timeout. Retrying...".

(** The world once [get] has announced a retry. *)
Definition retry_logged (w : World) : World :=
  set_console (λ l, l ++ [retry_notice]) w.

(** The exchange was answered with status 504. *)
Definition answered_504 (x : Exchange) : Prop :=
  ∃ response, outcome x = Resolved response ∧ status response = 504.

(** How a run of [get] ends, read off its network calls [new], and the
    retry notices it has written. *)
Definition ends_well (retryCount : Z) (w w' : World) (new : list Exchange)
    (response : Response) : Prop :=
  ∃ prev x,
    new = prev ++ [x]
    ∧ outcome x = Resolved response
    ∧ Forall answered_504 prev
    ∧ Z.of_nat (length prev) <= Z.max 0 retryCount
    ∧ (status response = 504 → Z.of_nat (length prev) = Z.max 0 retryCount)
    ∧ console w' = console w ++ replicate (length prev) retry_notice.

Definition ends_in_transit (w w' : World) (new : list Exchange) (e : Exn) : Prop :=
  ∃ prev x,
    new = prev ++ [x]
    ∧ outcome x = Rejected e
    ∧ Forall answered_504 prev
    ∧ console w' = console w ++ replicate (length prev) retry_notice.

Definition ends_at_limiter (w w' : World) (new : list Exchange) (e : Exn) : Prop :=
  e = TypeError_undefined "timestamp"
  ∧ maxRequestsPerWindow (this w) <= 0
  ∧ Forall answered_504 new
  ∧ console w' = console w ++ replicate (length new) retry_notice.

(** ** The public methods *)

(** A call of one of the thirteen public methods. *)
Inductive Call :=
| call_discord (ids : list string)
| call_location (locations : list (Q * Q))
| call_nations
| call_nation (ids : list string)
| call_towns
| call_town (ids : list string)
| call_nearbyTown (town : string) (radius : Q)
| call_nearbyCoord (coords : Q * Q) (radius : Q)
| call_players
| call_player (ids : list string)
| call_quarters
| call_quarter (ids : list string)
| call_server.

Definition perform (env : Env) (c : Call) : Task string :=
  match c with
  | call_discord ids => discord env ids
  | call_location locations => location env locations
  | call_nations => nations env
  | call_nation ids => nation env ids
  | call_towns => towns env
  | call_town ids => town env ids
  | call_nearbyTown t radius => nearbyTown env t radius
  | call_nearbyCoord coords radius => nearbyCoord env coords radius
  | call_players => players env
  | call_player ids => player env ids
  | call_quarters => quarters env
  | call_quarter ids => quarter env ids
  | call_server => server env
  end.

(** The resource a call addresses, under [BASE_URL/serverStr/]. *)
Definition resource_of (c : Call) : string :=
  match c with
  | call_discord _ => "discord"
  | call_location _ => "location"
  | call_nations | call_nation _ => "nations"
  | call_towns | call_town _ | call_nearbyTown _ _ | call_nearbyCoord _ _ => "towns"
  | call_players | call_player _ => "players"
  | call_quarters | call_quarter _ => "quarters"
  | call_server => ""
  end.

(** [x;y] of a location, both rounded. *)
Definition location_query (location : Q * Q) : string :=
  Number_toString (Math_round location.1) +:+ ";"
  +:+ Number_toString (Math_round location.2).

(** The parameters a call attaches before the request is executed. *)
Definition params_of (c : Call) : list (string * string) :=
  match c with
  | call_discord ids | call_nation ids | call_town ids | call_player ids
  | call_quarter ids => [("query", join "," ids)]
  | call_location locations => [("query", join "," (map location_query locations))]
  | call_nearbyTown t radius =>
      [("town", t); ("radius", Number_toString (Math_round radius))]
  | call_nearbyCoord coords radius =>
      [("x", Number_toString (Math_round coords.1));
       ("z", Number_toString (Math_round coords.2));
       ("radius", Number_toString (Math_round radius))]
  | call_nations | call_towns | call_players | call_quarters | call_server => []
  end.

(** ** A client's session *)

(** The network calls a public method makes when it is called in [w]. *)
Definition requests_of (env : Env) (c : Call) (w : World) : list Exchange :=
  drop (length (net w)) (net (perform env c w).2).

(** A session of one client: the public methods called on it one after
    the other, each some time after the previous one has settled.
    Whether a call returns or throws, the same client serves the next.
    The result lists every call with the network calls it made. *)
Fixpoint session (env : Env) (calls : list (Z * Call)) (w : World)
    : list (Call * list Exchange) :=
  match calls with
  | [] => []
  | (pause, c) :: calls' =>
      let w1 := (elapse pause w).2 in
      (c, requests_of env c w1) :: session env calls' (perform env c w1).2
  end.

(** * Properties *)

(** ** Running tasks *)

Lemma run_bind {A B} (m : Task A) (f : A → Task B) (w : World) :
  (m ≫= f) w =
  match m w with
  | (Normal a, w') => f a w'
  | (Throw e, w') => (Throw e, w')
  | (OutOfFuel, w') => (OutOfFuel, w')
  end.
Proof. reflexivity. Qed.

(** A handler that only rethrows changes nothing. *)
Lemma try_catch_rethrow {A} (body : Task A) (w : World) :
  try_catch body (λ error, throw error) w = body w.
Proof. unfold try_catch, throw. by destruct (body w) as [[a|e|] w']. Qed.

(** ** The rate limiter *)

Lemma timer_delay_positive (ms : Z) : 1 <= timer_delay ms.
Proof. unfold timer_delay. case_bool_decide; lia. Qed.

Lemma timer_delay_in_range (ms : Z) :
  1 <= ms <= TIMEOUT_MAX → timer_delay ms = ms.
Proof. intros Hms. unfold timer_delay. by rewrite bool_decide_eq_true_2. Qed.

Lemma timer_delay_out_of_range (ms : Z) :
  TIMEOUT_MAX < ms → timer_delay ms = 1.
Proof. intros Hms. unfold timer_delay. rewrite bool_decide_eq_false_2; [done|lia]. Qed.

Lemma rateLimit_under_quota (w : World) :
  Z.of_nat (length (kept w)) < maxRequestsPerWindow (this w) →
  rateLimit w = (Normal tt, let_through w [] 0).
Proof.
  intros Hlt. unfold rateLimit, Date_now, gets, modify.
  rewrite !run_bind. cbn -[filter]. fold (kept w).
  rewrite bool_decide_eq_false_2 by lia.
  unfold let_through, set_this. cbn -[filter]. fold (kept w).
  by rewrite Z.add_0_r, app_nil_r.
Qed.

Lemma rateLimit_over_quota (w : World) (oldest : RequestRecord) :
  Z.of_nat (length (kept w)) >= maxRequestsPerWindow (this w) →
  kept w !! 0%nat = Some oldest →
  let timeToWait := timestamp oldest + windowSize (this w) - clock w in
  rateLimit w = (Normal tt, let_through w [timeToWait] (timer_delay timeToWait)).
Proof.
  intros Hge Hhd timeToWait. unfold rateLimit, Date_now, gets, modify.
  rewrite !run_bind. cbn -[filter]. fold (kept w).
  rewrite bool_decide_eq_true_2 by lia. rewrite Hhd. reflexivity.
Qed.

Lemma rateLimit_empty_queue (w : World) :
  Z.of_nat (length (kept w)) >= maxRequestsPerWindow (this w) →
  kept w = [] →
  rateLimit w =
    (Throw (TypeError_undefined "timestamp"),
     set_this (set_requestQueue []) w).
Proof.
  intros Hge Hnil. unfold rateLimit, Date_now, gets, modify.
  rewrite !run_bind. cbn -[filter]. fold (kept w).
  rewrite bool_decide_eq_true_2 by lia.
  unfold set_this, throw. cbn -[filter]. fold (kept w).
  rewrite Hnil. reflexivity.
Qed.

Lemma kept_prune_by_spec (w : World) :
  kept w = prune_by_spec (clock w) (windowSize (this w)) (requestQueue (this w)).
Proof. unfold kept, prune_by_spec. apply list_filter_iff. intros req. lia. Qed.

(** With a positive quota the over-quota branch finds a first record. *)
Lemma kept_head (w : World) :
  1 <= maxRequestsPerWindow (this w) →
  Z.of_nat (length (kept w)) >= maxRequestsPerWindow (this w) →
  ∃ oldest, kept w !! 0%nat = Some oldest
            ∧ timestamp oldest + windowSize (this w) > clock w.
Proof.
  intros Hpos Hge. destruct (kept w) as [|oldest rest] eqn:Hk.
  - simpl in Hge. lia.
  - exists oldest. split; [done|].
    assert (oldest ∈ kept w) as Hin by (rewrite Hk; left).
    unfold kept in Hin. by apply list_elem_of_filter in Hin as [? _].
Qed.

(** What [rateLimit] does, by cases on the quota test. *)
Lemma rateLimit_cases (w : World) :
  1 <= maxRequestsPerWindow (this w) →
  (Z.of_nat (length (kept w)) < maxRequestsPerWindow (this w)
   ∧ rateLimit w = (Normal tt, let_through w [] 0))
  ∨ (∃ oldest,
       let timeToWait := timestamp oldest + windowSize (this w) - clock w in
       Z.of_nat (length (kept w)) >= maxRequestsPerWindow (this w)
       ∧ kept w !! 0%nat = Some oldest
       ∧ 0 < timeToWait
       ∧ rateLimit w = (Normal tt, let_through w [timeToWait] (timer_delay timeToWait))).
Proof.
  intros Hpos.
  destruct (decide (Z.of_nat (length (kept w)) < maxRequestsPerWindow (this w)))
    as [Hlt|Hge].
  - left. split; [done|]. by apply rateLimit_under_quota.
  - right. destruct (kept_head w) as (oldest & Hhd & Hin); [done|lia|].
    exists oldest. cbn zeta. split_and!; [lia|done|lia|].
    by rewrite (rateLimit_over_quota w oldest) by (done || lia).
Qed.

(** C4.  The pruning step of [rateLimit] removes exactly the records whose
    [timestamp + windowSize <= now] and keeps all the others, in their
    order: the queue the call leaves is the specification's pruned queue,
    followed by the new record when the call is let through.  The quota
    test counts the kept records only, so a queue of any length whose
    kept part is under quota causes no wait. *)
Theorem rateLimit_prunes (w : World) :
  let now := clock w in
  let W := windowSize (this w) in
  let q := requestQueue (this w) in
  requestQueue (this (rateLimit w).2) =
    prune_by_spec now W q
    ++ match (rateLimit w).1 with
       | Normal _ => [{| timestamp := now |}]
       | _ => []
       end
  ∧ (∀ req, req ∈ q → timestamp req + W <= now → req ∉ prune_by_spec now W q)
  ∧ (∀ req, req ∈ q → ¬ (timestamp req + W <= now) → req ∈ prune_by_spec now W q)
  ∧ prune_by_spec now W q `sublist_of` q
  ∧ (Z.of_nat (length (prune_by_spec now W q)) < maxRequestsPerWindow (this w) →
     (rateLimit w).1 = Normal tt
     ∧ timers (rateLimit w).2 = timers w
     ∧ clock (rateLimit w).2 = now).
Proof.
  intros now W q. subst now W q. rewrite <- kept_prune_by_spec.
  split_and!.
  - destruct (decide (Z.of_nat (length (kept w)) < maxRequestsPerWindow (this w)))
      as [Hlt|Hge].
    + by rewrite rateLimit_under_quota.
    + destruct (kept w !! 0%nat) as [oldest|] eqn:Hhd.
      * rewrite (rateLimit_over_quota w oldest) by (done || lia). done.
      * assert (kept w = []) as Hnil by (by destruct (kept w)).
        rewrite rateLimit_empty_queue by (done || lia).
        cbn. by rewrite Hnil.
  - intros req _ Hold Hin. unfold kept in Hin.
    apply list_elem_of_filter in Hin as [? _]. lia.
  - intros req Hin Hnew. unfold kept. apply list_elem_of_filter. split; [lia|done].
  - unfold kept. apply sublist_filter.
  - intros Hlt. rewrite rateLimit_under_quota by done. cbn.
    split_and!; [done|by rewrite app_nil_r|lia].
Qed.

(** A long queue of stale records does not count against the quota. *)
Example stale_records_do_not_count :
  let w := fresh_world
             (set_requestQueue (replicate 50 {| timestamp := 0 |}) (limited 1 1000))
             5000 in
  rateLimit w
  = (Normal tt, fresh_world (set_requestQueue [{| timestamp := 5000 |}] (limited 1 1000)) 5000).
Proof. vm_compute. reflexivity. Qed.

(** C7.  With a positive quota, whenever [rateLimit] enters the
    over-quota branch the pruned queue has a first record, so reading
    [requestQueue[0].timestamp] succeeds and the call does not throw, and
    the delay [requestQueue[0].timestamp + windowSize - now] handed to the
    timer is strictly positive. *)
Theorem rateLimit_wait_positive (w : World) :
  1 <= maxRequestsPerWindow (this w) →
  Z.of_nat (length (kept w)) >= maxRequestsPerWindow (this w) →
  ∃ oldest timeToWait,
    kept w !! 0%nat = Some oldest
    ∧ timeToWait = timestamp oldest + windowSize (this w) - clock w
    ∧ 0 < timeToWait
    ∧ (rateLimit w).1 = Normal tt
    ∧ timers (rateLimit w).2 = timers w ++ [timeToWait].
Proof.
  intros Hpos Hge.
  destruct (rateLimit_cases w Hpos) as [[Hlt _]|(oldest & _ & Hhd & Hwait & Hrun)];
    [lia|].
  exists oldest, (timestamp oldest + windowSize (this w) - clock w).
  rewrite Hrun. by split_and!.
Qed.

Lemma rateLimit_wait_positive_witness :
  let w := fresh_world (set_requestQueue [{| timestamp := 0 |}] (limited 1 1000)) 400 in
  ∃ oldest timeToWait,
    kept w !! 0%nat = Some oldest
    ∧ timeToWait = timestamp oldest + windowSize (this w) - clock w
    ∧ 0 < timeToWait
    ∧ (rateLimit w).1 = Normal tt
    ∧ timers (rateLimit w).2 = timers w ++ [timeToWait].
Proof.
  apply (rateLimit_wait_positive
           (fresh_world (set_requestQueue [{| timestamp := 0 |}] (limited 1 1000)) 400)).
  - vm_compute. discriminate.
  - vm_compute. discriminate.
Defined.

(** Without a positive quota the branch is entered on an empty queue and
    the read of [requestQueue[0].timestamp] throws. *)
Example rateLimit_zero_quota_throws :
  (rateLimit (fresh_world (limited 0 1000) 0)).1
  = Throw (TypeError_undefined "timestamp").
Proof. vm_compute. reflexivity. Qed.

(** The wait half of the wait contract: at quota, with oldest kept record
    at [t0] and a delay the timer can take, the call suspends for
    [max 0 (t0 + W - now)].  The record it then appends carries [now],
    the reading taken on entry, while the clock on return reads
    [now + (t0 + W - now) = t0 + W]. *)
Lemma rateLimit_at_quota (w : World) (oldest : RequestRecord) :
  1 <= maxRequestsPerWindow (this w) →
  Z.of_nat (length (kept w)) >= maxRequestsPerWindow (this w) →
  kept w !! 0%nat = Some oldest →
  timestamp oldest + windowSize (this w) - clock w <= TIMEOUT_MAX →
  let t0 := timestamp oldest in
  let waited := Z.max 0 (t0 + windowSize (this w) - clock w) in
  (rateLimit w).1 = Normal tt
  ∧ clock (rateLimit w).2 = clock w + waited
  ∧ last (requestQueue (this (rateLimit w).2)) = Some {| timestamp := clock w |}
  ∧ clock w < clock (rateLimit w).2.
Proof.
  intros Hpos Hge Hhd Hfits t0 waited. subst t0 waited.
  destruct (rateLimit_cases w Hpos) as [[Hlt _]|(o & _ & Hhd' & Hwait & Hrun)];
    [lia|].
  rewrite Hhd in Hhd'. injection Hhd' as <-.
  rewrite Hrun, timer_delay_in_range by lia.
  cbn -[kept]. rewrite last_snoc. split_and!; [done|lia|done|lia].
Qed.

(** C2.  Quota 1, window 1000 ms, one record stamped 0 in the queue, and a
    call at time 400: the call waits 600 ms, until the clock reads 1000,
    and the record it appends is stamped 400, the time of the call, not
    1000, the time at which the request is let through. *)
Theorem rateLimit_stamps_entry_time :
  let w := fresh_world (set_requestQueue [{| timestamp := 0 |}] (limited 1 1000)) 400 in
  (rateLimit w).1 = Normal tt
  ∧ timers (rateLimit w).2 = [600]
  ∧ clock (rateLimit w).2 = 1000
  ∧ requestQueue (this (rateLimit w).2) = [{| timestamp := 0 |}; {| timestamp := 400 |}]
  ∧ last (requestQueue (this (rateLimit w).2)) ≠ Some {| timestamp := 1000 |}.
Proof. vm_compute. by split_and!. Qed.

(** C1.  Quota 1, window 1000 ms, three back-to-back sequential calls
    starting at time 0.  The second call waits out the window but its
    record is stamped 0, so the third call, made at time 1000, prunes it
    and is let through at once: two requests are let through at time
    1000, inside one window, and after the second call the queue already
    holds two records stamped 0. *)
Theorem sequential_quota_exceeded :
  let w := fresh_world (limited 1 1000) 0 in
  maxRequestsPerWindow (this w) = 1
  ∧ (sequential_rateLimit [0; 0; 0] w).1 = Normal [0; 1000; 1000]
  ∧ admitted_within 1000 1000 [0; 1000; 1000] = 2%nat
  ∧ requestQueue (this (sequential_rateLimit [0; 0] w).2)
    = [{| timestamp := 0 |}; {| timestamp := 0 |}].
Proof. vm_compute. by split_and!. Qed.

(** The same with quota 2: five back-to-back calls, three of them let
    through at time 1000. *)
Example five_calls_exceed_quota :
  let w := fresh_world (limited 2 1000) 0 in
  (sequential_rateLimit [0; 0; 0; 0; 0] w).1 = Normal [0; 0; 1000; 1000; 1000]
  ∧ admitted_within 1000 1000 [0; 0; 1000; 1000; 1000] = 3%nat.
Proof. vm_compute. by split_and!. Qed.

(** Through the public methods: quota 1 per 1000 ms, network calls of
    40 ms, three [players()] calls one after the other.  The readings in
    the cache-busting values show when each request went out: at 0, at
    1000 and at 1040. *)
Example sequential_players_exceed_quota :
  let w := fresh_world (limited 1 1000) 0 in
  map requested (net ((players quiet_env;; players quiet_env;; players quiet_env) w).2)
  = ["https://api.earthmc.net/v3/aurora/players?no-cache-please=0%7E0.53";
     "https://api.earthmc.net/v3/aurora/players?no-cache-please=1000%7E0.53";
     "https://api.earthmc.net/v3/aurora/players?no-cache-please=1040%7E0.53"].
Proof. vm_compute. reflexivity. Qed.

(** ** The constructor *)

(** C3.  The constructor sets [serverStr] to ["aurora"] whatever the
    options say: a client constructed with [{ server: "nova" }] sends its
    requests to [https://api.earthmc.net/v3/aurora/...]. *)
Theorem constructor_ignores_server :
  (∀ options, serverStr (constructor options) = "aurora")
  ∧ let o := constructor (Some {| opt_server := Some "nova";
                                  opt_maxRequestsPerWindow := None;
                                  opt_windowSize := None |}) in
    map requested (net (discord quiet_env ["fruitloopins"] (fresh_world o 0)).2)
    = ["https://api.earthmc.net/v3/aurora/discord?query=fruitloopins&no-cache-please=0%7E0.53"].
Proof. split; [done|]. vm_compute. reflexivity. Qed.

Lemma constructor_defaults :
  constructor None
  = {| serverStr := "aurora"; requestQueue := [];
       maxRequestsPerWindow := 9007199254740991; windowSize := 300000 |}.
Proof. reflexivity. Qed.

(** ** The request executor *)

Section Executor.
Context (env : Env).

(** What [rateLimit] leaves alone, and that it never runs the clock
    backwards. *)
Lemma rateLimit_frame (w : World) :
  let w1 := (rateLimit w).2 in
  heap w1 = heap w ∧ net w1 = net w ∧ draws w1 = draws w
  ∧ console w1 = console w
  ∧ serverStr (this w1) = serverStr (this w)
  ∧ maxRequestsPerWindow (this w1) = maxRequestsPerWindow (this w)
  ∧ windowSize (this w1) = windowSize (this w)
  ∧ clock w <= clock w1
  ∧ (rateLimit w).1 ≠ OutOfFuel.
Proof.
  destruct (decide (Z.of_nat (length (kept w)) < maxRequestsPerWindow (this w)))
    as [Hlt|Hge].
  - rewrite rateLimit_under_quota by done. cbn. split_and!; (done || lia).
  - destruct (kept w !! 0%nat) as [oldest|] eqn:Hhd.
    + rewrite (rateLimit_over_quota w oldest) by (done || lia).
      pose proof (timer_delay_positive
                    (timestamp oldest + windowSize (this w) - clock w)).
      cbn. split_and!; (done || lia).
    + assert (kept w = []) as Hnil by (by destruct (kept w)).
      rewrite rateLimit_empty_queue by (done || lia).
      cbn. split_and!; (done || lia).
Qed.

Lemma get_rec_unfold (fuel : nat) (url : loc) (retryCount : Z) (w : World) :
  get_rec env fuel url retryCount w =
  match rateLimit w with
  | (Normal _, w1) =>
      match attempt_outcome env url w1 with
      | Resolved response =>
          after_response env fuel url retryCount response (after_fetch env url w1)
      | Rejected e => (Throw e, after_fetch env url w1)
      end
  | (Throw e, w1) => (Throw e, w1)
  | (OutOfFuel, w1) => (OutOfFuel, w1)
  end.
Proof.
  destruct fuel; cbn [get_rec]; rewrite run_bind;
    destruct (rateLimit w) as [[[]|e|] w1]; try reflexivity;
    rewrite !run_bind; cbn -[try_catch];
    unfold Math_random_toPrecision2, searchParams_append, modify;
    rewrite !run_bind; cbn -[try_catch];
    rewrite try_catch_rethrow; unfold toString, gets; rewrite !run_bind; cbn;
    unfold fetch, after_fetch, attempt_outcome, attempt_address, attempt_value,
      after_response, set_clock, set_net, set_heap, set_draws; cbn;
    rewrite lookup_total_insert_eq;
    destruct (fetch_outcome _ _ _); reflexivity.
Qed.

(** [get] never exhausts the recursion budget of the model, and a larger
    budget changes nothing: the method is total. *)
Lemma get_rec_total (fuel : nat) (url : loc) (retryCount : Z) (w : World) :
  retryCount <= Z.of_nat fuel →
  (get_rec env fuel url retryCount w).1 ≠ OutOfFuel.
Proof.
  revert retryCount w.
  induction fuel as [|fuel IH]; intros retryCount w Hfuel;
    rewrite get_rec_unfold;
    pose proof (rateLimit_frame w) as (_ & _ & _ & _ & _ & _ & _ & _ & Hrl);
    destruct (rateLimit w) as [[[]|e|] w1]; try done;
    destruct (attempt_outcome env url w1) as [response|e]; try done;
    unfold after_response;
    destruct (bool_decide (status response = 504)); cbn [andb]; try done;
    case_bool_decide; try done; try lia.
  rewrite run_bind. cbn. apply IH. lia.
Qed.

Lemma get_rec_enough_fuel (fuel : nat) (url : loc) (retryCount : Z) (w : World) :
  retryCount <= Z.of_nat fuel →
  get_rec env fuel url retryCount w = get env url retryCount w.
Proof.
  unfold get.
  assert (∀ n m r w, r <= Z.of_nat n → r <= Z.of_nat m →
                     get_rec env n url r w = get_rec env m url r w) as Hany.
  { clear. induction n as [|n IH]; intros m r w Hn Hm;
      rewrite !get_rec_unfold;
      destruct (rateLimit w) as [[[]|e|] w1]; try done;
      destruct (attempt_outcome env url w1) as [response|e]; try done;
      unfold after_response;
      destruct (bool_decide (status response = 504)); cbn [andb]; try done;
      case_bool_decide; try done; try lia.
    destruct m as [|m]; [lia|].
    rewrite !run_bind. cbn. apply IH; lia. }
  intros Hfuel. apply Hany; lia.
Qed.

Lemma get_total (url : loc) (retryCount : Z) (w : World) :
  (get env url retryCount w).1 ≠ OutOfFuel.
Proof. apply get_rec_total. lia. Qed.

(** *** Failures and statuses other than 504 end the call *)

(** The network calls of one run of [get]: a call that rejects, or that
    resolves with a status other than 504, is the last one, and decides
    how [get] completes. *)
Lemma get_rec_exchanges (fuel : nat) (url : loc) (retryCount : Z) (w : World) :
  ∃ new,
    net (get_rec env fuel url retryCount w).2 = net w ++ new
    ∧ ∀ i x, new !! i = Some x →
        match outcome x with
        | Rejected e =>
            (get_rec env fuel url retryCount w).1 = Throw e
            ∧ S i = length new
        | Resolved response =>
            status response ≠ 504 →
            (get_rec env fuel url retryCount w).1 = Normal response
            ∧ S i = length new
        end.
Proof.
  revert retryCount w.
  induction fuel as [|fuel IH]; intros retryCount w; rewrite get_rec_unfold;
    pose proof (rateLimit_frame w) as (_ & Hnet & _);
    destruct (rateLimit w) as [[[]|e|] w1]; cbn [snd] in Hnet;
    try (exists []; rewrite app_nil_r; split; [done|by intros i x ?]).
  all: destruct (attempt_outcome env url w1) as [response|e] eqn:Hout.
  all: unfold after_response.
  all: try destruct (bool_decide_reflect (status response = 504)) as [H504|H504];
    cbn [andb]; try case_bool_decide.
  all: try rewrite run_bind.
  all: try (eexists [_]; split; [cbn; rewrite Hnet; reflexivity|];
            intros [|i] x Hx; [|done]; injection Hx as <-; cbn;
            by rewrite Hout).
  (* a retry *)
  cbn [console_log modify].
  destruct (IH (retryCount - 1)
              (set_console (λ l, l ++ ["Encountered 504 Gateway Timeout. Retrying..."])
                 (after_fetch env url w1))) as (new & Hnew & Hall).
  eexists (_ :: new). rewrite Hnew. cbn [set_console net after_fetch].
  rewrite Hnet, <- app_assoc. split; [done|].
  intros [|i] x Hx.
  - injection Hx as <-. cbn [outcome]. rewrite Hout. done.
  - cbn in Hx. specialize (Hall i x Hx). cbn [length].
    destruct (outcome x) as [response'|e'];
      [intros Hne; destruct (Hall Hne) as [-> ->]|destruct Hall as [-> ->]]; done.
Qed.

Lemma get_exchange_ends_call (url : loc) (retryCount : Z) (w : World)
    (i : nat) (x : Exchange) :
  (length (net w) ≤ i)%nat →
  net (get env url retryCount w).2 !! i = Some x →
  (∀ e, outcome x = Rejected e →
        (get env url retryCount w).1 = Throw e
        ∧ S i = length (net (get env url retryCount w).2))
  ∧ (∀ response, outcome x = Resolved response → status response ≠ 504 →
        (get env url retryCount w).1 = Normal response
        ∧ S i = length (net (get env url retryCount w).2)).
Proof.
  intros Hi Hx. unfold get in *.
  destruct (get_rec_exchanges (Z.to_nat retryCount) url retryCount w)
    as (new & Hnew & Hall).
  rewrite Hnew in Hx |- *. rewrite lookup_app_r in Hx by done.
  specialize (Hall _ _ Hx). rewrite length_app.
  split.
  - intros e He. rewrite He in Hall. destruct Hall as [-> <-]. split; [done|lia].
  - intros response Hr Hne. rewrite Hr in Hall.
    destruct (Hall Hne) as [-> <-]. split; [done|lia].
Qed.

(** C6.  A network call of [get] that rejects ends the call: [get]
    throws the very value the network call rejected with, and makes no
    further network call.  A network call that resolves with a status
    other than 504 ends the call too: [get] returns that response as
    its normal result, and makes no further network call. *)
Theorem get_propagates_failures (url : loc) (retryCount : Z) (w : World)
    (i : nat) (x : Exchange) :
  (length (net w) ≤ i)%nat →
  net (get env url retryCount w).2 !! i = Some x →
  (∀ e, outcome x = Rejected e →
        (get env url retryCount w).1 = Throw e
        ∧ S i = length (net (get env url retryCount w).2))
  ∧ (∀ response, outcome x = Resolved response → status response ≠ 504 →
        (get env url retryCount w).1 = Normal response
        ∧ S i = length (net (get env url retryCount w).2)).
Proof. apply get_exchange_ends_call. Qed.

(** *** The retry bound *)

Lemma rateLimit_normal (w : World) :
  1 <= maxRequestsPerWindow (this w) → (rateLimit w).1 = Normal tt.
Proof.
  intros Hpos.
  by destruct (rateLimit_cases w Hpos) as [[_ ->]|(oldest & _ & _ & _ & ->)].
Qed.

Lemma get_rec_always_504 (n : nat) (url : loc) (w : World) :
  always_504 env →
  1 <= maxRequestsPerWindow (this w) →
  ∃ response,
    (get_rec env n url (Z.of_nat n) w).1 = Normal response
    ∧ status response = 504
    ∧ outcome <$> last (net (get_rec env n url (Z.of_nat n) w).2)
      = Some (Resolved response)
    ∧ length (net (get_rec env n url (Z.of_nat n) w).2)
      = (length (net w) + n + 1)%nat.
Proof.
  intros H504. revert w.
  induction n as [|n IH]; intros w Hpos; rewrite get_rec_unfold;
    pose proof (rateLimit_normal w Hpos) as Hrl;
    pose proof (rateLimit_frame w) as (_ & Hnet & _ & _ & _ & Hmax & _);
    destruct (rateLimit w) as [c w1]; cbn [fst snd] in Hrl, Hnet, Hmax; subst c;
    destruct (H504 (length (net w1)) (attempt_address env url w1))
      as (response & Hout & Hst);
    change (attempt_outcome env url w1 = Resolved response) in Hout;
    rewrite Hout; unfold after_response;
    rewrite (bool_decide_eq_true_2 _ Hst); cbn [andb].
  - rewrite bool_decide_eq_false_2 by lia.
    exists response. cbn. rewrite last_snoc, Hout, length_app, Hnet. cbn.
    split_and!; (done || lia).
  - rewrite bool_decide_eq_true_2 by lia.
    rewrite run_bind. cbn [console_log modify].
    replace (Z.of_nat (S n) - 1) with (Z.of_nat n) by lia.
    destruct (IH (set_console (λ l, l ++ ["Encountered 504 Gateway Timeout. Retrying..."])
                    (after_fetch env url w1))) as (r & Hres & Hr & Hlast & Hlen).
    { cbn. lia. }
    exists r. rewrite Hres, Hlast, Hlen. cbn. rewrite length_app, Hnet. cbn.
    split_and!; (done || lia).
Qed.

(** C5.  With a positive quota and a retry budget [retryCount >= 0]: if
    every network call answers 504, [get] makes exactly
    [retryCount + 1] network calls and returns the last 504 response as
    its normal result; and a first network call is always made, and if
    it resolves with a status other than 504 it is the only one and its
    response is the result. *)
Theorem get_retry_bound (url : loc) (retryCount : Z) (w : World) :
  1 <= maxRequestsPerWindow (this w) →
  0 <= retryCount →
  (always_504 env →
   ∃ response,
     (get env url retryCount w).1 = Normal response
     ∧ status response = 504
     ∧ outcome <$> last (net (get env url retryCount w).2)
       = Some (Resolved response)
     ∧ Z.of_nat (length (net (get env url retryCount w).2))
       = Z.of_nat (length (net w)) + retryCount + 1)
  ∧ ∃ first,
      net (get env url retryCount w).2 !! length (net w) = Some first
      ∧ ∀ response, outcome first = Resolved response →
          status response ≠ 504 →
          (get env url retryCount w).1 = Normal response
          ∧ length (net (get env url retryCount w).2) = S (length (net w)).
Proof.
  intros Hpos Hbudget. split.
  - intros H504. unfold get.
    destruct (get_rec_always_504 (Z.to_nat retryCount) url w H504 Hpos)
      as (response & Hres & Hst & Hlast & Hlen).
    rewrite Z2Nat.id in Hres, Hlast, Hlen by done.
    exists response. rewrite Hlen. split_and!; (done || lia).
  - assert (∃ first, net (get env url retryCount w).2 !! length (net w) = Some first)
      as [first Hfirst].
    { unfold get. rewrite get_rec_unfold.
      pose proof (rateLimit_normal w Hpos) as Hrl.
      pose proof (rateLimit_frame w) as (_ & Hnet & _).
      destruct (rateLimit w) as [c w1]; cbn [fst snd] in Hrl, Hnet; subst c.
      assert (∀ w2, (∃ new, net w2 = net (after_fetch env url w1) ++ new) →
                    is_Some (net w2 !! length (net w))) as Hext.
      { intros w2 [new ->]. cbn. rewrite Hnet, <- app_assoc.
        rewrite lookup_app_r by done. rewrite Nat.sub_diag. by eexists. }
      apply Hext.
      destruct (attempt_outcome env url w1) as [response|e];
        [|exists []; by rewrite app_nil_r].
      unfold after_response.
      destruct (bool_decide (status response = 504) && bool_decide (retryCount > 0));
        [|exists []; by rewrite app_nil_r].
      rewrite run_bind. cbn [console_log modify].
      destruct (Z.to_nat retryCount) as [|fuel];
        [exists []; by rewrite app_nil_r|].
      destruct (get_rec_exchanges fuel url (retryCount - 1)
                  (set_console (λ l, l ++ ["Encountered 504 Gateway Timeout. Retrying..."])
                     (after_fetch env url w1))) as (new & -> & _).
      by exists new. }
    exists first. split; [done|]. intros response Hr Hne.
    destruct (get_exchange_ends_call url retryCount w (length (net w)) first)
      as [_ Hok]; [done|done|].
    destruct (Hok response Hr Hne) as [-> <-]. done.
Qed.

(** *** The cache-busting parameters *)

Lemma with_cache_busters_append (u : URL) (v : string) (vs : list string) :
  with_cache_busters (URL_append "no-cache-please" v u) vs
  = with_cache_busters u (v :: vs).
Proof. unfold with_cache_busters, URL_append. cbn. by rewrite <- app_assoc. Qed.

Lemma with_cache_busters_nil (u : URL) : with_cache_busters u [] = u.
Proof. destruct u as [h ps]. unfold with_cache_busters. cbn. by rewrite app_nil_r. Qed.

Lemma attempts_of_none (url : loc) (w w' : World) :
  heap w' = heap w → net w' = net w → attempts_of env url w w' [].
Proof.
  intros Hheap Hnet. unfold attempts_of, generated.
  cbn. rewrite Hheap, Hnet. split_and!; try done.
  - by rewrite with_cache_busters_nil.
  - exists []. by rewrite app_nil_r.
Qed.

(** One attempt from [w1], where [rateLimit] returned, and nothing after
    it that touches the URL object or the network. *)
Lemma attempts_of_one (url : loc) (w w1 w' : World) :
  heap w1 = heap w → net w1 = net w → draws w1 = draws w →
  clock w <= clock w1 →
  heap w' = heap (after_fetch env url w1) → net w' = net (after_fetch env url w1) →
  attempts_of env url w w' [clock w1].
Proof.
  intros Hheap Hnet Hdraws Hclock Hheap' Hnet'.
  unfold attempts_of, generated. cbn [imap length seq fmap list_fmap].
  rewrite Hheap', Hnet'. cbn [after_fetch heap net].
  rewrite lookup_total_insert_eq, Hheap, Hnet.
  unfold kth_address, attempt_address, attempt_value. cbn [take].
  rewrite Hheap, Hdraws, Nat.add_0_r.
  rewrite <- with_cache_busters_append, with_cache_busters_nil.
  split_and!; try done.
  - by eexists [_].
  - intros t [= <-]. done.
Qed.

(** An attempt from [w1] followed by a run from [w3] to [w']. *)
Lemma attempts_of_retry (url : loc) (w w1 w3 w' : World) (ts : list Z) :
  heap w1 = heap w → net w1 = net w → draws w1 = draws w →
  clock w <= clock w1 →
  heap w3 = heap (after_fetch env url w1) → net w3 = net (after_fetch env url w1) →
  draws w3 = draws (after_fetch env url w1) → clock w3 = clock (after_fetch env url w1) →
  attempts_of env url w3 w' ts →
  attempts_of env url w w' (clock w1 :: ts).
Proof.
  intros Hheap Hnet Hdraws Hclock Hheap3 Hnet3 Hdraws3 Hclock3.
  unfold attempts_of. cbn zeta.
  intros (Hurl & (new & Hnew & Hreq) & Hfirst & Hchain).
  rewrite Hheap3, Hnet3 in *. cbn [after_fetch heap net draws clock] in *.
  rewrite lookup_total_insert_eq in Hurl, Hreq.
  rewrite Hheap, Hnet in *.
  assert (generated env w (clock w1 :: ts) = attempt_value env w1 :: generated env w3 ts) as Hgen.
  { unfold generated. rewrite imap_cons. f_equal.
    - unfold attempt_value. by rewrite Hdraws, Nat.add_0_r.
    - apply imap_ext. intros k t _. cbn. rewrite Hdraws3. cbn.
      rewrite Hdraws. do 2 f_equal. lia. }
  rewrite Hgen. split_and!.
  - by rewrite Hurl, with_cache_busters_append.
  - eexists (_ :: new). rewrite Hnew, <- app_assoc. split; [done|].
    cbn [length seq fmap list_fmap requested]. f_equal.
    + unfold kth_address, attempt_address. cbn [take].
      by rewrite Hheap, take_0, <- with_cache_busters_append, with_cache_busters_nil.
    + change (list_fmap ?A ?B ?f ?l) with (f <$> l).
      change (list_fmap ?A ?B ?f ?l) with (f <$> l) in Hreq.
      rewrite Hreq, <- (fmap_S_seq 1), <- list_fmap_compose.
      apply list_fmap_ext. intros _ k _. unfold kth_address. cbn.
      by rewrite with_cache_busters_append.
  - intros t [= <-]. done.
  - intros [|k] t t' Ht Ht'; cbn in Ht, Ht'.
    + injection Ht as <-. specialize (Hfirst _ Ht').
      rewrite Hclock3 in Hfirst. by rewrite Nat.add_0_r.
    + specialize (Hchain _ _ _ Ht Ht').
      rewrite length_app in Hchain. cbn in Hchain.
      by replace (length (net w) + S k)%nat with (length (net w) + 1 + k)%nat by lia.
Qed.

Lemma get_rec_attempts (fuel : nat) (url : loc) (retryCount : Z) (w : World) :
  ∃ ts, attempts_of env url w (get_rec env fuel url retryCount w).2 ts.
Proof.
  revert retryCount w.
  induction fuel as [|fuel IH]; intros retryCount w; rewrite get_rec_unfold;
    pose proof (rateLimit_frame w) as (Hheap & Hnet & Hdraws & _ & _ & _ & _ & Hclock & _);
    destruct (rateLimit w) as [[[]|e|] w1]; cbn [snd] in Hheap, Hnet, Hdraws, Hclock;
    try (exists []; by apply attempts_of_none).
  all: destruct (attempt_outcome env url w1) as [response|e];
    [|exists [clock w1]; by apply (attempts_of_one url w w1)].
  all: unfold after_response;
    destruct (bool_decide (status response = 504) && bool_decide (retryCount > 0));
    [|exists [clock w1]; by apply (attempts_of_one url w w1)].
  all: rewrite run_bind; cbn [console_log modify].
  - exists [clock w1]. by apply (attempts_of_one url w w1).
  - destruct (IH (retryCount - 1)
                (set_console (λ l, l ++ ["Encountered 504 Gateway Timeout. Retrying..."])
                   (after_fetch env url w1))) as [ts Hts].
    exists (clock w1 :: ts).
    by eapply (attempts_of_retry url w w1); [..|exact Hts].
Qed.

End Executor.

(** ** Strings *)

Lemma length_append (s1 s2 : string) :
  String.length (s1 +:+ s2) = (String.length s1 + String.length s2)%nat.
Proof. induction s1 as [|c s1 IH]; simpl; [done|]. by rewrite IH. Qed.

(** Two strings that agree up to and after the first occurrence of a
    separator have the same parts. *)
Lemma append_separator_inj (c : ascii) (s1 s2 r1 r2 : string) :
  ¬ occurs c s1 → ¬ occurs c s2 →
  s1 +:+ String c r1 = s2 +:+ String c r2 → s1 = s2 ∧ r1 = r2.
Proof.
  revert s2. induction s1 as [|a s1 IH]; intros [|b s2] H1 H2 Heq; simpl in *.
  - by injection Heq as ->.
  - injection Heq as -> _. tauto.
  - injection Heq as -> _. tauto.
  - injection Heq as -> Heq. destruct (IH s2) as [-> ->]; tauto.
Qed.

Lemma pretty_N_go_no_tilde (x : N) (s : string) :
  ¬ occurs "~" s → ¬ occurs "~" (pretty_N_go x s).
Proof.
  revert s. induction (N.lt_wf_0 x) as [x _ IH]; intros s Hs.
  destruct (decide (0 < x)%N) as [Hpos|Hzero].
  - rewrite pretty_N_go_step by done. apply IH; [by apply N.div_lt|].
    cbn. intros [Hc|Hin]; [|done].
    unfold pretty_N_char in Hc. by repeat case_match.
  - assert (x = 0%N) as -> by lia. by rewrite pretty_N_go_0.
Qed.

Lemma Number_toString_no_tilde (n : Z) : ¬ occurs "~" (Number_toString n).
Proof.
  unfold Number_toString, pretty, pretty_Z. destruct n as [|p|p].
  - cbn. intros [?|[]]. done.
  - unfold pretty, pretty_positive, pretty, pretty_N.
    case_decide; [done|]. apply pretty_N_go_no_tilde. by intros [].
  - unfold pretty, pretty_positive, pretty, pretty_N.
    case_decide; [done|]. simpl. intros [Hc|Hin]; [done|].
    apply pretty_N_go_no_tilde in Hin; [done|by intros []].
Qed.

(** The parameter value determines the clock reading and the digits. *)
Lemma cache_buster_inj (t t' : Z) (d d' : string) :
  cache_buster t d = cache_buster t' d' → t = t' ∧ d = d'.
Proof.
  unfold cache_buster. cbn. intros Heq.
  apply append_separator_inj in Heq as [Ht ->];
    [|apply Number_toString_no_tilde..].
  split; [|done]. by apply (inj pretty).
Qed.

(** ** Addresses grow with every parameter *)

Lemma concat_snoc_length (sep : string) (l : list string) (x : string) :
  (String.length (String.concat sep l) + String.length x
   ≤ String.length (String.concat sep (l ++ [x])))%nat.
Proof.
  induction l as [|a l IH]; [simpl; lia|].
  destruct l as [|b l]; simpl in *; rewrite ?length_append in *; lia.
Qed.

Lemma URL_toString_params (h : string) (ps : list (string * string)) :
  ps ≠ [] →
  URL_toString {| href := h; searchParams := ps |}
  = h +:+ "?" +:+ URLSearchParams_toString ps.
Proof. by destruct ps. Qed.

Lemma URL_append_longer (name value : string) (u : URL) :
  (String.length (URL_toString u)
   < String.length (URL_toString (URL_append name value u)))%nat.
Proof.
  destruct u as [h ps]. unfold URL_append. cbn [href searchParams].
  rewrite (URL_toString_params h (ps ++ _)) by (by destruct ps).
  unfold URLSearchParams_toString. rewrite map_app. cbn [map fst snd].
  set (enc := λ p : string * string, urlencode p.1 +:+ "=" +:+ urlencode p.2).
  pose proof (concat_snoc_length "&" (map enc ps)
                (urlencode name +:+ "=" +:+ urlencode value)) as Hlen.
  rewrite !length_append in Hlen |- *.
  destruct ps as [|p ps].
  - unfold URL_toString. cbn [searchParams href].
    change (String.length "?") with 1%nat. lia.
  - rewrite URL_toString_params by done. unfold URLSearchParams_toString.
    fold enc. rewrite !length_append.
    change (String.length "=") with 1%nat in Hlen. lia.
Qed.

Lemma with_cache_busters_snoc (u : URL) (vs : list string) (v : string) :
  with_cache_busters u (vs ++ [v])
  = URL_append "no-cache-please" v (with_cache_busters u vs).
Proof.
  unfold with_cache_busters, URL_append. cbn. by rewrite map_app, app_assoc.
Qed.

Lemma kth_address_longer (u : URL) (vs : list string) (i j : nat) :
  (i < j)%nat → (j ≤ length vs)%nat →
  (String.length (kth_address u vs i) < String.length (kth_address u vs j))%nat.
Proof.
  induction j as [|j IH]; [lia|]. intros Hij Hj.
  destruct (lookup_lt_is_Some_2 vs j) as [v Hv]; [lia|].
  assert (String.length (kth_address u vs j)
          < String.length (kth_address u vs (S j)))%nat as Hstep.
  { unfold kth_address. rewrite (take_S_r _ _ _ Hv), with_cache_busters_snoc.
    apply URL_append_longer. }
  destruct (decide (i = j)) as [->|Hne]; [done|].
  etrans; [apply IH; lia|done].
Qed.

Lemma cache_busters_with (u : URL) (vs : list string) :
  cache_busters (with_cache_busters u vs) = cache_busters u ++ vs.
Proof.
  unfold cache_busters, with_cache_busters. cbn [searchParams].
  rewrite filter_app, fmap_app. f_equal.
  induction vs as [|v vs IH]; [done|].
  cbn [map]. rewrite filter_cons_True by done. cbn. by rewrite IH.
Qed.

(** ** The cache-busting parameters of a run of [get] *)

Section CacheBusting.
Context (env : Env).

Lemma get_attempts (url : loc) (retryCount : Z) (w : World) :
  ∃ ts, attempts_of env url w (get env url retryCount w).2 ts.
Proof. apply get_rec_attempts. Qed.

Lemma attempts_of_requests (url : loc) (w w' : World) (ts : list Z) :
  attempts_of env url w w' ts →
  ∃ new, net w' = net w ++ new
         ∧ length new = length ts
         ∧ ∀ k x, new !! k = Some x →
             requested x = kth_address (heap w !!! url) (generated env w ts) (S k).
Proof.
  intros (_ & (new & Hnew & Hreq) & _). exists new.
  assert (length new = length ts) as Hlen.
  { apply (f_equal length) in Hreq. by rewrite !length_fmap, length_seq in Hreq. }
  split_and!; [done..|]. intros k x Hx.
  assert ((requested <$> new) !! k = Some (requested x)) as Hk
    by (by rewrite list_lookup_fmap, Hx).
  rewrite Hreq, list_lookup_fmap, lookup_seq_lt in Hk.
  - by injection Hk as <-.
  - apply lookup_lt_Some in Hx. lia.
Qed.

(** C8, as the code has it.  The attempts of one run of [get] request
    pairwise distinct addresses, each carrying one more
    [no-cache-please] parameter than the one before.  The values
    generated for two consecutive attempts differ whenever the network
    call between them took at least a millisecond, or [Math.random]
    yielded different digits for them. *)
Theorem get_attempts_distinct (url : loc) (retryCount : Z) (w : World) :
  ∃ (ts : list Z) (new : list Exchange),
    let vs := generated env w ts in
    net (get env url retryCount w).2 = net w ++ new
    ∧ length new = length vs
    ∧ cache_busters (heap (get env url retryCount w).2 !!! url)
      = cache_busters (heap w !!! url) ++ vs
    ∧ (∀ i j x y, (i < j)%nat → new !! i = Some x → new !! j = Some y →
                  requested x ≠ requested y)
    ∧ (∀ k v v', vs !! k = Some v → vs !! S k = Some v' →
         0 < fetch_latency env (length (net w) + k)
         ∨ random_digits env (draws w + k) ≠ random_digits env (draws w + S k) →
         v ≠ v').
Proof.
  destruct (get_attempts url retryCount w) as [ts Hts].
  destruct (attempts_of_requests _ _ _ _ Hts) as (new & Hnew & Hlen & Hreq).
  exists ts, new. cbn zeta.
  assert (length (generated env w ts) = length ts) as Hgen
    by apply length_imap.
  destruct Hts as (Hurl & _ & _ & Hchain).
  split_and!; [done|congruence|by rewrite Hurl, cache_busters_with|..].
  - intros i j x y Hij Hx Hy Heq.
    rewrite (Hreq _ _ Hx), (Hreq _ _ Hy) in Heq.
    apply lookup_lt_Some in Hy.
    pose proof (kth_address_longer (heap w !!! url) (generated env w ts) (S i) (S j))
      as Hlt.
    rewrite Heq in Hlt. lia.
  - intros k v v' Hv Hv' Hmoved ->.
    unfold generated in Hv, Hv'. rewrite list_lookup_imap in Hv, Hv'.
    destruct (ts !! k) as [t|] eqn:Ht; [|done].
    destruct (ts !! S k) as [t'|] eqn:Ht'; [|done].
    cbn in Hv, Hv'. injection Hv' as <-. injection Hv as Heq.
    apply cache_buster_inj in Heq as [-> Hdigits].
    specialize (Hchain _ _ _ Ht Ht'). destruct Hmoved as [Hlat|Hrnd]; [lia|done].
Qed.

End CacheBusting.

(** C8.  A first attempt answered 504 within the millisecond, a retry in
    the same millisecond, and the same digits from [Math.random]: both
    attempts generate the value [1700000000000~0.53]. *)
Lemma cache_busters_can_coincide :
  let w := towns_request (constructor None) 1700000000000 in
  let w' := (get same_millisecond 0%nat default_retryCount w).2 in
  length (net w') = 2%nat
  ∧ (∃ v, cache_busters (heap w' !!! 0%nat) = [v; v])
  ∧ cache_busters (heap w' !!! 0%nat) = ["1700000000000~0.53"; "1700000000000~0.53"]
  ∧ map requested (net w')
    = ["https://api.earthmc.net/v3/aurora/towns?no-cache-please=1700000000000%7E0.53";
       "https://api.earthmc.net/v3/aurora/towns?no-cache-please=1700000000000%7E0.53&no-cache-please=1700000000000%7E0.53"].
Proof. vm_compute. split_and!; [done|by eexists|done|done]. Qed.

(** Four attempts against a gateway that is down: the addresses carry
    one, two, three and four parameters. *)
Example gateway_down_addresses :
  let w := towns_request (constructor None) 1700000000000 in
  map requested (net (get gateway_down 0%nat default_retryCount w).2)
  = ["https://api.earthmc.net/v3/aurora/towns?no-cache-please=1700000000000%7E0.53";
     "https://api.earthmc.net/v3/aurora/towns?no-cache-please=1700000000000%7E0.53&no-cache-please=1700000030000%7E0.071";
     "https://api.earthmc.net/v3/aurora/towns?no-cache-please=1700000000000%7E0.53&no-cache-please=1700000030000%7E0.071&no-cache-please=1700000060000%7E0.98";
     "https://api.earthmc.net/v3/aurora/towns?no-cache-please=1700000000000%7E0.53&no-cache-please=1700000030000%7E0.071&no-cache-please=1700000060000%7E0.98&no-cache-please=1700000090000%7E0.22"].
Proof. vm_compute. reflexivity. Qed.

Lemma get_retry_bound_witness :
  let w := towns_request (constructor None) 1700000000000 in
  (∃ response,
     (get gateway_down 0%nat 3 w).1 = Normal response
     ∧ status response = 504
     ∧ outcome <$> last (net (get gateway_down 0%nat 3 w).2)
       = Some (Resolved response)
     ∧ Z.of_nat (length (net (get gateway_down 0%nat 3 w).2))
       = Z.of_nat (length (net w)) + 3 + 1)
  ∧ ∃ first,
      net (get gateway_down 0%nat 3 w).2 !! length (net w) = Some first
      ∧ ∀ response, outcome first = Resolved response →
          status response ≠ 504 →
          (get gateway_down 0%nat 3 w).1 = Normal response
          ∧ length (net (get gateway_down 0%nat 3 w).2) = S (length (net w)).
Proof.
  destruct (get_retry_bound gateway_down 0%nat 3
              (towns_request (constructor None) 1700000000000))
    as [Hall Hfirst].
  - vm_compute. discriminate.
  - lia.
  - split; [|exact Hfirst]. apply Hall.
    intros k address. exists gateway_timeout. by split.
Defined.

Lemma get_propagates_failures_witness :
  let w := towns_request (constructor None) 1700000000000 in
  let x := {| requested :=
                "https://api.earthmc.net/v3/aurora/towns?no-cache-please=1700000000000%7E0.53&no-cache-please=1700000000025%7E0.53";
              headers := [("X-Origin", "celerry")];
              outcome := Rejected fetch_failed |} in
  (∀ e, outcome x = Rejected e →
        (get connection_lost 0%nat 3 w).1 = Throw e
        ∧ 2%nat = length (net (get connection_lost 0%nat 3 w).2))
  ∧ (∀ response, outcome x = Resolved response → status response ≠ 504 →
        (get connection_lost 0%nat 3 w).1 = Normal response
        ∧ 2%nat = length (net (get connection_lost 0%nat 3 w).2)).
Proof.
  apply (get_propagates_failures connection_lost 0%nat 3
           (towns_request (constructor None) 1700000000000) 1%nat).
  - vm_compute. lia.
  - vm_compute. reflexivity.
Defined.

(** A failure in transit on the retry: [get] throws it as it is. *)
Example connection_lost_run :
  let w := towns_request (constructor None) 1700000000000 in
  (get connection_lost 0%nat 3 w).1 = Throw fetch_failed
  ∧ map outcome (net (get connection_lost 0%nat 3 w).2)
    = [Resolved gateway_timeout; Rejected fetch_failed].
Proof. vm_compute. done. Qed.

(** ** Rounding in the endpoint methods *)

(** [Math.round] is within a half of its argument, a tie going up. *)
Lemma Math_round_nearest (q : Q) :
  (inject_Z (Math_round q) - (1 # 2) <= q)%Q
  ∧ (q < inject_Z (Math_round q) + (1 # 2))%Q.
Proof.
  unfold Math_round.
  pose proof (Qfloor_le (q + (1 # 2))) as Hle.
  pose proof (Qlt_floor (q + (1 # 2))) as Hlt.
  rewrite inject_Z_plus in Hlt. change (inject_Z 1) with 1%Q in Hlt.
  split; lra.
Qed.

Lemma run_then_json (m : Task Response) (w : World) :
  ((m ≫= Response_json) w).2 = (m w).2.
Proof.
  rewrite run_bind. destruct (m w) as [[r|e|] w']; try done.
  unfold Response_json. by destruct (json r).
Qed.

(** C9.  Every request [nearbyCoord] issues has, before the cache-busting
    parameters, the parameters [x], [z] and [radius], each the decimal
    form of [Math.round] of the corresponding argument; [Math.round]
    yields the nearest integer; and [nearbyCoord([12.6, -3.4], 5.7)]
    requests [x=13&z=-3&radius=6]. *)
Theorem nearbyCoord_rounds (env : Env) (coords : Q * Q) (radius : Q) (w : World) :
  (∀ k x, net (nearbyCoord env coords radius w).2 !! (length (net w) + k)%nat = Some x →
     ∃ vs, requested x =
       URL_toString
         {| href := BASE_URL +:+ "/" +:+ serverStr (this w) +:+ "/towns";
            searchParams :=
              [("x", Number_toString (Math_round coords.1));
               ("z", Number_toString (Math_round coords.2));
               ("radius", Number_toString (Math_round radius))]
              ++ map (pair "no-cache-please") vs |})
  ∧ (∀ q : Q, (inject_Z (Math_round q) - (1 # 2) <= q)%Q
              ∧ (q < inject_Z (Math_round q) + (1 # 2))%Q)
  ∧ (Number_toString (Math_round double_12_6) = "13"
     ∧ Number_toString (Math_round double_minus_3_4) = "-3"
     ∧ Number_toString (Math_round double_5_7) = "6")
  ∧ map requested
      (net (nearbyCoord quiet_env (double_12_6, double_minus_3_4) double_5_7
              (fresh_world (constructor None) 1700000000000)).2)
    = ["https://api.earthmc.net/v3/aurora/towns?x=13&z=-3&radius=6&no-cache-please=1700000000000%7E0.53"].
Proof.
  split; [|split; [apply Math_round_nearest|split; [by vm_compute|by vm_compute]]].
  intros k x.
  set (l := fresh (dom (heap w))).
  set (u := {| href := BASE_URL +:+ "/" +:+ serverStr (this w) +:+ "/towns";
               searchParams :=
                 [("x", Number_toString (Math_round coords.1));
                  ("z", Number_toString (Math_round coords.2));
                  ("radius", Number_toString (Math_round radius))] |}).
  assert (∃ w4, heap w4 !!! l = u ∧ net w4 = net w
                ∧ nearbyCoord env coords radius w
                  = (get env l default_retryCount ≫= Response_json) w4)
    as (w4 & Hu & Hnet & ->).
  { eexists. split_and!; [| |reflexivity]; [|done].
    cbn [heap set_heap]. by rewrite !lookup_total_insert_eq. }
  rewrite run_then_json.
  destruct (get_attempts env l default_retryCount w4) as [ts Hts].
  destruct (attempts_of_requests _ _ _ _ _ Hts) as (new & Hnew & _ & Hreq).
  rewrite Hnew, Hnet, lookup_app_r by lia.
  replace (length (net w) + k - length (net w))%nat with k by lia.
  intros Hx. rewrite (Hreq _ _ Hx), Hu.
  by exists (take (S k) (generated env w4 ts)).
Qed.

(** ** The bound on network calls *)

Lemma get_rec_attempt_bound (env : Env) (fuel : nat) (url : loc)
    (retryCount : Z) (w : World) :
  (length (net (get_rec env fuel url retryCount w).2)
   ≤ length (net w) + Z.to_nat retryCount + 1)%nat.
Proof.
  revert retryCount w.
  induction fuel as [|fuel IH]; intros retryCount w; rewrite get_rec_unfold;
    pose proof (rateLimit_frame w) as (_ & Hnet & _);
    destruct (rateLimit w) as [[[]|e|] w1]; cbn [snd] in Hnet |- *;
    try (rewrite Hnet; lia).
  all: destruct (attempt_outcome env url w1) as [response|e'];
    [|cbn; rewrite length_app, Hnet; cbn; lia].
  all: unfold after_response.
  all: destruct (bool_decide (status response = 504)); cbn [andb];
    [case_bool_decide|]; try rewrite run_bind;
    try (cbn; rewrite length_app, Hnet; cbn; lia).
  cbn [console_log modify].
  etrans; [apply IH|]. cbn. rewrite length_app, Hnet. cbn. lia.
Qed.

(** X1.  Whatever the network answers, a call of [get] completes,
    normally or by throwing, after at most [max 0 retryCount + 1] network
    calls. *)
Theorem get_attempts_bounded (env : Env) (url : loc) (retryCount : Z) (w : World) :
  (get env url retryCount w).1 ≠ OutOfFuel
  ∧ Z.of_nat (length (net (get env url retryCount w).2))
    <= Z.of_nat (length (net w)) + Z.max 0 retryCount + 1.
Proof.
  split; [apply get_total|].
  pose proof (get_rec_attempt_bound env (Z.to_nat retryCount) url retryCount w).
  unfold get. lia.
Qed.

(** * Further properties *)

(** ** The queue kept by [rateLimit] *)

Lemma StronglySorted_filter {A} (R : relation A) (P : A → Prop)
    `{!∀ x, Decision (P x)} (l : list A) :
  StronglySorted R l → StronglySorted R (filter P l).
Proof.
  induction 1 as [|x l Hl IH Hx]; [constructor|].
  rewrite filter_cons. case_decide; [|done].
  constructor; [done|].
  apply Forall_forall. intros y Hy. apply list_elem_of_filter in Hy as [_ Hy].
  by eapply Forall_forall in Hx.
Qed.

Lemma kept_in_order (w : World) :
  queue_in_order w →
  StronglySorted stamped_before (kept w)
  ∧ Forall (λ req, timestamp req <= clock w) (kept w).
Proof.
  intros [Hsorted Hpast]. unfold kept. split.
  - by apply StronglySorted_filter.
  - apply Forall_forall. intros req Hreq.
    apply list_elem_of_filter in Hreq as [_ Hreq].
    by eapply Forall_forall in Hpast.
Qed.

Lemma in_order_snoc (q : list RequestRecord) (now : Z) :
  StronglySorted stamped_before q →
  Forall (λ req, timestamp req <= now) q →
  StronglySorted stamped_before (q ++ [{| timestamp := now |}]).
Proof.
  intros Hsorted Hpast. apply StronglySorted_app. split_and!.
  - intros a b Ha Hb. apply list_elem_of_singleton in Hb as ->.
    eapply Forall_forall in Hpast; [|done]. done.
  - done.
  - repeat constructor.
Qed.

(** X2.  When the queue is in the order of its stamps and holds no stamp
    later than the clock, it is so again after [rateLimit], however the
    call ends. *)
Theorem rateLimit_keeps_queue_in_order (w : World) :
  queue_in_order w → queue_in_order (rateLimit w).2.
Proof.
  intros Hw. destruct (kept_in_order w Hw) as [Hsorted Hpast].
  assert (∀ delays waited, 0 <= waited → queue_in_order (let_through w delays waited))
    as Hthrough.
  { intros delays waited Hwaited. split; cbn -[kept].
    - by apply in_order_snoc.
    - apply Forall_app. split.
      + eapply Forall_impl; [done|]. cbn. intros. lia.
      + repeat constructor. cbn. lia. }
  destruct (decide (Z.of_nat (length (kept w)) < maxRequestsPerWindow (this w)))
    as [Hlt|Hge].
  - rewrite rateLimit_under_quota by done. by apply Hthrough.
  - destruct (kept w !! 0%nat) as [oldest|] eqn:Hhd.
    + rewrite (rateLimit_over_quota w oldest) by (done || lia).
      apply Hthrough.
      pose proof (timer_delay_positive
                    (timestamp oldest + windowSize (this w) - clock w)).
      lia.
    + assert (kept w = []) as Hnil by (by destruct (kept w)).
      rewrite rateLimit_empty_queue by (done || lia).
      split; cbn; constructor.
Qed.

Lemma rateLimit_keeps_queue_in_order_witness :
  queue_in_order
    (rateLimit
       (fresh_world
          (set_requestQueue [{| timestamp := 0 |}; {| timestamp := 250 |}]
             (limited 2 1000)) 400)).2.
Proof.
  apply rateLimit_keeps_queue_in_order.
  split; cbn; repeat constructor; unfold stamped_before; cbn; lia.
Defined.

(** X3.  With the queue in order, a positive quota and a window of at
    most [TIMEOUT_MAX] ms, the longest delay a timer takes, a call that
    finds the quota used up waits for the record at the head of the kept
    queue, which is the oldest one: the delay is positive and at most
    one window, the call returns at the very instant that record leaves
    the window, and no other kept record has left it earlier. *)
Theorem rateLimit_waits_for_oldest (w : World) :
  queue_in_order w →
  1 <= maxRequestsPerWindow (this w) →
  windowSize (this w) <= TIMEOUT_MAX →
  Z.of_nat (length (kept w)) >= maxRequestsPerWindow (this w) →
  ∃ oldest delay,
    kept w !! 0%nat = Some oldest
    ∧ (∀ req, req ∈ kept w → timestamp oldest <= timestamp req)
    ∧ timers (rateLimit w).2 = timers w ++ [delay]
    ∧ 0 < delay <= windowSize (this w)
    ∧ clock (rateLimit w).2 = timestamp oldest + windowSize (this w)
    ∧ (∀ req, req ∈ kept w →
         clock (rateLimit w).2 <= timestamp req + windowSize (this w)).
Proof.
  intros Hw Hpos Hfits Hge.
  destruct (kept_in_order w Hw) as [Hsorted Hpast].
  destruct (rateLimit_cases w Hpos) as [[Hlt _]|(oldest & _ & Hhd & Hwait & Hrun)];
    [lia|].
  assert (∀ req, req ∈ kept w → timestamp oldest <= timestamp req) as Holdest.
  { destruct (kept w) as [|first rest]; [done|]. injection Hhd as ->.
    apply StronglySorted_cons in Hsorted as [Hfirst _].
    intros req [->|Hreq]%elem_of_cons; [done|].
    by eapply Forall_forall in Hfirst. }
  assert (timestamp oldest <= clock w) as Hold.
  { eapply Forall_forall in Hpast; [done|]. by eapply list_elem_of_lookup_2. }
  exists oldest, (timestamp oldest + windowSize (this w) - clock w).
  rewrite Hrun, timer_delay_in_range by lia.
  cbn -[kept]. split_and!; [done|done|done|lia|lia|lia|].
  intros req Hreq. specialize (Holdest req Hreq). lia.
Qed.

Lemma rateLimit_waits_for_oldest_witness :
  let w := fresh_world
             (set_requestQueue [{| timestamp := 0 |}; {| timestamp := 250 |}]
                (limited 2 1000)) 400 in
  ∃ oldest delay,
    kept w !! 0%nat = Some oldest
    ∧ (∀ req, req ∈ kept w → timestamp oldest <= timestamp req)
    ∧ timers (rateLimit w).2 = timers w ++ [delay]
    ∧ 0 < delay <= windowSize (this w)
    ∧ clock (rateLimit w).2 = timestamp oldest + windowSize (this w)
    ∧ (∀ req, req ∈ kept w →
         clock (rateLimit w).2 <= timestamp req + windowSize (this w)).
Proof.
  apply (rateLimit_waits_for_oldest
           (fresh_world
              (set_requestQueue [{| timestamp := 0 |}; {| timestamp := 250 |}]
                 (limited 2 1000)) 400)).
  - split; cbn; repeat constructor; unfold stamped_before; cbn; lia.
  - vm_compute. discriminate.
  - vm_compute. discriminate.
  - vm_compute. discriminate.
Defined.

(** A window longer than the timer takes: quota 1, a window of
    3000000000 ms and one record stamped 0.  The call asks the timer for
    3000000000 ms and is back after 1 ms, long before the record leaves
    the window. *)
Example rateLimit_window_beyond_timer :
  let w := fresh_world
             (set_requestQueue [{| timestamp := 0 |}] (limited 1 3000000000)) 0 in
  timers (rateLimit w).2 = [3000000000]
  ∧ clock (rateLimit w).2 = 1.
Proof. vm_compute. done. Qed.

(** ** Calls within the quota *)

Lemma length_kept (w : World) :
  (length (kept w) ≤ length (requestQueue (this w)))%nat.
Proof. apply length_filter. Qed.

(** X4.  As long as the records in the queue and the calls to come do not
    outnumber the quota, sequential calls are let through without any
    timer, each at the instant it is made, whatever the time between
    them. *)
Theorem calls_within_quota_never_wait (gaps : list Z) (w : World) :
  Z.of_nat (length (requestQueue (this w)) + length gaps)
    <= maxRequestsPerWindow (this w) →
  ∃ instants,
    (sequential_rateLimit gaps w).1 = Normal instants
    ∧ length instants = length gaps
    ∧ (∀ k t, instants !! k = Some t →
              t = clock w + foldr Z.add 0 (take (S k) gaps))
    ∧ timers (sequential_rateLimit gaps w).2 = timers w
    ∧ clock (sequential_rateLimit gaps w).2 = clock w + foldr Z.add 0 gaps.
Proof.
  revert w. induction gaps as [|gap gaps IH]; intros w Hquota.
  - exists []. cbn. split_and!; (done || lia).
  - cbn [sequential_rateLimit]. rewrite run_bind. cbn [elapse modify].
    set (w0 := set_clock (λ t, t + gap) w).
    assert (Z.of_nat (length (kept w0)) < maxRequestsPerWindow (this w0)) as Hlt.
    { pose proof (length_kept w0). cbn [length] in Hquota.
      change (this w0) with (this w) in *. lia. }
    rewrite run_bind, (rateLimit_under_quota w0 Hlt).
    rewrite run_bind. cbn [Date_now gets]. rewrite run_bind.
    destruct (IH (let_through w0 [] 0)) as (instants & Hrun & Hlen & Hat & Htimers & Hclock).
    { cbn -[kept]. rewrite length_app. pose proof (length_kept w0).
      cbn [length] in *. change (this w0) with (this w) in *. lia. }
    rewrite (surjective_pairing (sequential_rateLimit gaps _)), Hrun.
    exists (clock (let_through w0 [] 0) :: instants). cbn -[kept let_through take].
    rewrite Htimers, Hclock. cbn. rewrite app_nil_r.
    split_and!; [done|by rewrite Hlen| |done|lia].
    intros [|k] t Ht; cbn in Ht.
    + injection Ht as <-. cbn. rewrite take_0. cbn. lia.
    + rewrite (Hat k t Ht). cbn. lia.
Qed.

Lemma calls_within_quota_never_wait_witness :
  let w := fresh_world (constructor None) 1700000000000 in
  ∃ instants,
    (sequential_rateLimit [0; 15; 0] w).1 = Normal instants
    ∧ length instants = 3%nat
    ∧ (∀ k t, instants !! k = Some t →
              t = clock w + foldr Z.add 0 (take (S k) [0; 15; 0]))
    ∧ timers (sequential_rateLimit [0; 15; 0] w).2 = timers w
    ∧ clock (sequential_rateLimit [0; 15; 0] w).2 = clock w + foldr Z.add 0 [0; 15; 0].
Proof.
  apply (calls_within_quota_never_wait [0; 15; 0]
           (fresh_world (constructor None) 1700000000000)).
  vm_compute. discriminate.
Defined.

(** ** Reasoning along the runs of [get] *)

Section Runs.
Context (env : Env) (url : loc).

(** The five ways a call of [get] proceeds: [rateLimit] throws; the
    network call rejects; it resolves and the response is returned; it
    resolves with 504 and budget left, and either the model's recursion
    budget is spent or [get] runs again. *)
Lemma get_rec_cases (P : nat → Z → World → Completion Response * World → Prop) :
  (∀ fuel r w e w1,
     rateLimit w = (Throw e, w1) → P fuel r w (Throw e, w1)) →
  (∀ fuel r w w1 e,
     rateLimit w = (Normal tt, w1) →
     attempt_outcome env url w1 = Rejected e →
     P fuel r w (Throw e, after_fetch env url w1)) →
  (∀ fuel r w w1 response,
     rateLimit w = (Normal tt, w1) →
     attempt_outcome env url w1 = Resolved response →
     ¬ (status response = 504 ∧ r > 0) →
     P fuel r w (Normal response, after_fetch env url w1)) →
  (∀ r w w1 response,
     rateLimit w = (Normal tt, w1) →
     attempt_outcome env url w1 = Resolved response →
     status response = 504 → r > 0 →
     P 0%nat r w (OutOfFuel, retry_logged (after_fetch env url w1))) →
  (∀ fuel r w w1 response,
     rateLimit w = (Normal tt, w1) →
     attempt_outcome env url w1 = Resolved response →
     status response = 504 → r > 0 →
     P fuel (r - 1) (retry_logged (after_fetch env url w1))
       (get_rec env fuel url (r - 1) (retry_logged (after_fetch env url w1))) →
     P (S fuel) r w
       (get_rec env fuel url (r - 1) (retry_logged (after_fetch env url w1)))) →
  ∀ fuel r w, P fuel r w (get_rec env fuel url r w).
Proof.
  intros Hthrow Hreject Hreturn Hspent Hretry.
  induction fuel as [|fuel IH]; intros r w; rewrite get_rec_unfold;
    pose proof (rateLimit_frame w) as (_ & _ & _ & _ & _ & _ & _ & _ & Hrl);
    destruct (rateLimit w) as [[[]|e|] w1] eqn:Hlimit; [|by eauto|done| |by eauto|done].
  all: destruct (attempt_outcome env url w1) as [response|e] eqn:Hout; [|by eauto].
  all: unfold after_response.
  all: destruct (bool_decide_reflect (status response = 504)) as [H504|H504];
    cbn [andb]; [|apply Hreturn; tauto].
  all: case_bool_decide; [|apply Hreturn; tauto].
  - eapply Hspent; eauto.
  - rewrite run_bind. cbn [console_log modify]. eapply Hretry; eauto.
Qed.

Lemma rateLimit_throws (w w1 : World) (e : Exn) :
  rateLimit w = (Throw e, w1) →
  e = TypeError_undefined "timestamp" ∧ maxRequestsPerWindow (this w) <= 0.
Proof.
  destruct (decide (Z.of_nat (length (kept w)) < maxRequestsPerWindow (this w)))
    as [Hlt|Hge].
  - by rewrite rateLimit_under_quota.
  - destruct (kept w !! 0%nat) as [oldest|] eqn:Hhd.
    + by rewrite (rateLimit_over_quota w oldest) by (done || lia).
    + assert (kept w = []) as Hnil by (by destruct (kept w)).
      rewrite rateLimit_empty_queue by (done || lia).
      intros [= <- _]. rewrite Hnil in Hge. cbn in Hge. split; [done|lia].
Qed.

Lemma rateLimit_this (w : World) :
  serverStr (this (rateLimit w).2) = serverStr (this w)
  ∧ maxRequestsPerWindow (this (rateLimit w).2) = maxRequestsPerWindow (this w)
  ∧ windowSize (this (rateLimit w).2) = windowSize (this w).
Proof. pose proof (rateLimit_frame w). cbn zeta in *. tauto. Qed.

(** What a run of [get] touches. *)
Lemma get_rec_frame (fuel : nat) (retryCount : Z) (w : World) :
  let w' := (get_rec env fuel url retryCount w).2 in
  (∃ new, net w' = net w ++ new
          ∧ Forall (λ x, headers x = [("X-Origin", "celerry")]) new
          ∧ draws w' = (draws w + length new)%nat)
  ∧ serverStr (this w') = serverStr (this w)
  ∧ maxRequestsPerWindow (this w') = maxRequestsPerWindow (this w)
  ∧ windowSize (this w') = windowSize (this w)
  ∧ (∀ l, l ≠ url → heap w' !! l = heap w !! l).
Proof.
  revert fuel retryCount w.
  apply (get_rec_cases (λ fuel r w res,
    (∃ new, net res.2 = net w ++ new
            ∧ Forall (λ x, headers x = [("X-Origin", "celerry")]) new
            ∧ draws res.2 = (draws w + length new)%nat)
    ∧ serverStr (this res.2) = serverStr (this w)
    ∧ maxRequestsPerWindow (this res.2) = maxRequestsPerWindow (this w)
    ∧ windowSize (this res.2) = windowSize (this w)
    ∧ (∀ l, l ≠ url → heap res.2 !! l = heap w !! l)));
    intros;
    match goal with H : rateLimit ?w0 = _ |- _ =>
      pose proof (rateLimit_frame w0) as (Hheap & Hnet & Hdraws & _ & Hs & Hm & Hw & _);
      rewrite H in * end;
    cbn [fst snd] in *.
  - split_and!; try done; [|by rewrite Hheap].
    exists []. rewrite app_nil_r. split_and!; [done|done|cbn; lia].
  - split_and!; try done; cbn.
    + eexists [_]. rewrite Hnet, Hdraws. split_and!; [done|by repeat constructor|cbn; lia].
    + intros l Hl. by rewrite lookup_insert_ne, Hheap.
  - split_and!; try done; cbn.
    + eexists [_]. rewrite Hnet, Hdraws. split_and!; [done|by repeat constructor|cbn; lia].
    + intros l Hl. by rewrite lookup_insert_ne, Hheap.
  - split_and!; try done; cbn.
    + eexists [_]. rewrite Hnet, Hdraws. split_and!; [done|by repeat constructor|cbn; lia].
    + intros l Hl. by rewrite lookup_insert_ne, Hheap.
  - match goal with IH : _ ∧ _ |- _ =>
      destruct IH as ((new & Hnew & Hhdr & Hdr) & Hs' & Hm' & Hw' & Hother) end.
    cbn in Hnew, Hdr, Hs', Hm', Hw', Hother.
    split_and!; try congruence.
    + eexists (_ :: new). rewrite Hnew, Hnet, <- app_assoc, Hdr, Hdraws.
      split_and!; [done|by constructor|cbn; lia].
    + intros l Hl. rewrite Hother by done. by rewrite lookup_insert_ne, Hheap.
Qed.

Lemma get_rec_outcome (fuel : nat) (retryCount : Z) (w : World) :
  ∃ new,
    net (get_rec env fuel url retryCount w).2 = net w ++ new
    ∧ match (get_rec env fuel url retryCount w).1 with
      | Normal response =>
          ends_well retryCount w (get_rec env fuel url retryCount w).2 new response
      | Throw e =>
          ends_in_transit w (get_rec env fuel url retryCount w).2 new e
          ∨ ends_at_limiter w (get_rec env fuel url retryCount w).2 new e
      | OutOfFuel => True
      end.
Proof.
  revert fuel retryCount w.
  apply (get_rec_cases (λ fuel r w res,
    ∃ new, net res.2 = net w ++ new
      ∧ match res.1 with
        | Normal response => ends_well r w res.2 new response
        | Throw e => ends_in_transit w res.2 new e ∨ ends_at_limiter w res.2 new e
        | OutOfFuel => True
        end));
    intros;
    match goal with H : rateLimit ?w0 = _ |- _ =>
      pose proof (rateLimit_frame w0) as (_ & Hnet & _ & Hcon & _ & Hm & _);
      pose proof (rateLimit_throws w0) as Hthrows;
      rewrite H in * end;
    cbn [fst snd] in *.
  - exists []. rewrite app_nil_r. split; [done|]. right.
    destruct (Hthrows _ _ eq_refl) as [-> ?].
    split_and!; [done|done|constructor|]. cbn. by rewrite app_nil_r.
  - eexists [_]. cbn. rewrite Hnet. split; [done|]. left.
    eexists [], _. cbn. rewrite app_nil_r. split_and!; [done|done|constructor|done].
  - eexists [_]. cbn. rewrite Hnet. split; [done|].
    eexists [], _. cbn. rewrite app_nil_r.
    split_and!; [done|done|constructor|lia| |done].
    intros H504. lia.
  - eexists [_]. cbn. rewrite Hnet. done.
  - match goal with IH : ∃ _, _ |- _ => destruct IH as (new & Hnew & Hend) end.
    cbn in Hnew. eexists (_ :: new). rewrite Hnew, Hnet, <- app_assoc.
    split; [done|].
    assert (answered_504 {| requested := attempt_address env url w1;
                            headers := [("X-Origin", "celerry")];
                            outcome := attempt_outcome env url w1 |}) as Hfirst
      by (eexists; split; [cbn; done|done]).
    assert (∀ n, console w1 ++ [retry_notice] ++ replicate n retry_notice
                 = console w ++ replicate (S n) retry_notice) as Hnotices
      by (intros n; by rewrite Hcon).
    destruct (get_rec env fuel url (r - 1) _).1 as [response'|e|]; [| |done].
    + destruct Hend as (prev & x & -> & Hx & Hprev & Hle & Hspent & Hlog).
      eexists (_ :: prev), x. cbn [length] in *.
      split_and!; [done|done|by constructor|lia|lia|].
      rewrite Hlog. cbn. by rewrite <- app_assoc, Hnotices.
    + destruct Hend as [(prev & x & -> & Hx & Hprev & Hlog)|(-> & Hquota & Hall & Hlog)].
      * left. eexists (_ :: prev), x.
        split_and!; [done|done|by constructor|].
        rewrite Hlog. cbn. by rewrite <- app_assoc, Hnotices.
      * right. cbn in Hquota. split_and!; [done|lia|by constructor|].
        rewrite Hlog. cbn. by rewrite <- app_assoc, Hnotices.
Qed.

Lemma get_rec_keeps_queue_in_order (fuel : nat) (retryCount : Z) (w : World) :
  (∀ k, 0 <= fetch_latency env k) →
  queue_in_order w →
  queue_in_order (get_rec env fuel url retryCount w).2
  ∧ clock w <= clock (get_rec env fuel url retryCount w).2.
Proof.
  intros Hlat. revert fuel retryCount w.
  apply (get_rec_cases (λ fuel r w res,
    queue_in_order w → queue_in_order res.2 ∧ clock w <= clock res.2));
    intros;
    match goal with H : rateLimit ?w0 = _, Hw : queue_in_order ?w0 |- _ =>
      pose proof (rateLimit_frame w0) as (_ & Hnet & _ & _ & _ & _ & _ & Hclock & _);
      pose proof (rateLimit_keeps_queue_in_order w0 Hw) as [Hsorted Hpast];
      rewrite H in * end;
    cbn [fst snd] in *.
  - by split.
  - split; [|specialize (Hlat (length (net w1))); cbn; lia].
    split; [done|]. cbn. eapply Forall_impl; [done|].
    cbn. intros req ?. specialize (Hlat (length (net w1))). lia.
  - split; [|specialize (Hlat (length (net w1))); cbn; lia].
    split; [done|]. cbn. eapply Forall_impl; [done|].
    cbn. intros req ?. specialize (Hlat (length (net w1))). lia.
  - split; [|specialize (Hlat (length (net w1))); cbn; lia].
    split; [done|]. cbn. eapply Forall_impl; [done|].
    cbn. intros req ?. specialize (Hlat (length (net w1))). lia.
  - match goal with IH : queue_in_order _ → _ |- _ => destruct IH as [Hq Hc] end.
    + split; [done|]. cbn. eapply Forall_impl; [done|].
      cbn. intros req ?. specialize (Hlat (length (net w1))). lia.
    + split; [done|]. cbn in Hc. specialize (Hlat (length (net w1))). lia.
Qed.

End Runs.

(** ** How [get] ends *)

(** X5.  When [get] returns a response, that response is the answer to
    its last network call and every earlier call was answered 504; the
    retries never exceed the budget, and a response with status 504 is
    returned only once the budget is spent. *)
Theorem get_returns_last_response (env : Env) (url : loc) (retryCount : Z)
    (w : World) (response : Response) :
  (get env url retryCount w).1 = Normal response →
  ∃ prev x,
    net (get env url retryCount w).2 = net w ++ prev ++ [x]
    ∧ outcome x = Resolved response
    ∧ Forall answered_504 prev
    ∧ Z.of_nat (length prev) <= Z.max 0 retryCount
    ∧ (status response = 504 → Z.of_nat (length prev) = Z.max 0 retryCount).
Proof.
  unfold get. intros Hres.
  destruct (get_rec_outcome env url (Z.to_nat retryCount) retryCount w)
    as (new & Hnew & Hend).
  rewrite Hres in Hend. destruct Hend as (prev & x & -> & ? & ? & ? & ? & _).
  by exists prev, x.
Qed.

Lemma get_returns_last_response_witness :
  let w := towns_request (constructor None) 1700000000000 in
  ∃ prev x,
    net (get gateway_down 0%nat 3 w).2 = net w ++ prev ++ [x]
    ∧ outcome x = Resolved gateway_timeout
    ∧ Forall answered_504 prev
    ∧ Z.of_nat (length prev) <= Z.max 0 3
    ∧ (status gateway_timeout = 504 → Z.of_nat (length prev) = Z.max 0 3).
Proof.
  apply (get_returns_last_response gateway_down 0%nat 3
           (towns_request (constructor None) 1700000000000) gateway_timeout).
  vm_compute. reflexivity.
Defined.

(** X6.  When [get] throws, the thrown value is the one its last network
    call rejected with, every earlier call having been answered 504; or
    else the quota is not positive, the value is the [TypeError] of
    reading [requestQueue[0].timestamp] on an empty queue, and every
    network call made before was answered 504. *)
Theorem get_throws_only (env : Env) (url : loc) (retryCount : Z)
    (w : World) (e : Exn) :
  (get env url retryCount w).1 = Throw e →
  ∃ new,
    net (get env url retryCount w).2 = net w ++ new
    ∧ ((∃ prev x, new = prev ++ [x] ∧ outcome x = Rejected e
                  ∧ Forall answered_504 prev)
       ∨ (e = TypeError_undefined "timestamp"
          ∧ maxRequestsPerWindow (this w) <= 0
          ∧ Forall answered_504 new)).
Proof.
  unfold get. intros Hres.
  destruct (get_rec_outcome env url (Z.to_nat retryCount) retryCount w)
    as (new & Hnew & Hend).
  rewrite Hres in Hend. exists new. split; [done|].
  destruct Hend as [(prev & x & ? & ? & ? & _)|(? & ? & ? & _)];
    [left; by exists prev, x|by right].
Qed.

Lemma get_throws_only_witness :
  let w := towns_request (constructor None) 1700000000000 in
  ∃ new,
    net (get connection_lost 0%nat 3 w).2 = net w ++ new
    ∧ ((∃ prev x, new = prev ++ [x] ∧ outcome x = Rejected fetch_failed
                  ∧ Forall answered_504 prev)
       ∨ (fetch_failed = TypeError_undefined "timestamp"
          ∧ maxRequestsPerWindow (this w) <= 0
          ∧ Forall answered_504 new)).
Proof.
  apply (get_throws_only connection_lost 0%nat 3
           (towns_request (constructor None) 1700000000000) fetch_failed).
  vm_compute. reflexivity.
Defined.

(** X7.  With a positive quota, [get] makes at least one network call
    and writes the retry notice to the console once per retry: one line
    fewer than the network calls it makes, and nothing else. *)
Theorem get_logs_each_retry (env : Env) (url : loc) (retryCount : Z) (w : World) :
  1 <= maxRequestsPerWindow (this w) →
  ∃ new,
    net (get env url retryCount w).2 = net w ++ new
    ∧ new ≠ []
    ∧ console (get env url retryCount w).2
      = console w ++ replicate (length new - 1) retry_notice.
Proof.
  unfold get. intros Hpos.
  destruct (get_rec_outcome env url (Z.to_nat retryCount) retryCount w)
    as (new & Hnew & Hend).
  pose proof (get_total env url retryCount w) as Htotal. unfold get in Htotal.
  exists new. split; [done|].
  destruct (get_rec env (Z.to_nat retryCount) url retryCount w).1
    as [response|e|]; [| |done].
  - destruct Hend as (prev & x & -> & _ & _ & _ & _ & ->).
    rewrite length_app. cbn. replace (length prev + 1 - 1)%nat with (length prev) by lia.
    split; [by destruct prev|done].
  - destruct Hend as [(prev & x & -> & _ & _ & ->)|(_ & ? & _)]; [|lia].
    rewrite length_app. cbn. replace (length prev + 1 - 1)%nat with (length prev) by lia.
    split; [by destruct prev|done].
Qed.

Lemma get_logs_each_retry_witness :
  let w := towns_request (constructor None) 1700000000000 in
  ∃ new,
    net (get gateway_down 0%nat 3 w).2 = net w ++ new
    ∧ new ≠ []
    ∧ console (get gateway_down 0%nat 3 w).2
      = console w ++ replicate (length new - 1) retry_notice.
Proof.
  apply (get_logs_each_retry gateway_down 0%nat 3
           (towns_request (constructor None) 1700000000000)).
  vm_compute. discriminate.
Defined.

(** ** What [get] touches *)

(** X8.  Every network call of [get] carries the one header
    [X-Origin: celerry], and each is preceded by exactly one draw of
    [Math.random]. *)
Theorem get_requests_carry_origin (env : Env) (url : loc) (retryCount : Z)
    (w : World) :
  ∃ new,
    net (get env url retryCount w).2 = net w ++ new
    ∧ Forall (λ x, headers x = [("X-Origin", "celerry")]) new
    ∧ draws (get env url retryCount w).2 = (draws w + length new)%nat.
Proof.
  destruct (get_rec_frame env url (Z.to_nat retryCount) retryCount w) as [Hnew _].
  exact Hnew.
Qed.

(** X9.  A call of [get] changes neither the client's server name, quota
    or window, nor any URL object other than the one it was handed. *)
Theorem get_leaves_client_alone (env : Env) (url : loc) (retryCount : Z)
    (w : World) :
  serverStr (this (get env url retryCount w).2) = serverStr (this w)
  ∧ maxRequestsPerWindow (this (get env url retryCount w).2)
    = maxRequestsPerWindow (this w)
  ∧ windowSize (this (get env url retryCount w).2) = windowSize (this w)
  ∧ (∀ l, l ≠ url → heap (get env url retryCount w).2 !! l = heap w !! l).
Proof.
  destruct (get_rec_frame env url (Z.to_nat retryCount) retryCount w) as [_ Hrest].
  exact Hrest.
Qed.

(** X10.  When no network call takes negative time, a call of [get]
    never sets the clock back and keeps the queue in the order of its
    stamps, with no stamp later than the clock. *)
Theorem get_keeps_queue_in_order (env : Env) (url : loc) (retryCount : Z)
    (w : World) :
  (∀ k, 0 <= fetch_latency env k) →
  queue_in_order w →
  queue_in_order (get env url retryCount w).2
  ∧ clock w <= clock (get env url retryCount w).2.
Proof.
  exact (get_rec_keeps_queue_in_order env url (Z.to_nat retryCount) retryCount w).
Qed.

Lemma get_keeps_queue_in_order_witness :
  let w := towns_request (limited 1 1000) 0 in
  queue_in_order (get gateway_down 0%nat 3 w).2
  ∧ clock w <= clock (get gateway_down 0%nat 3 w).2.
Proof.
  apply (get_keeps_queue_in_order gateway_down 0%nat 3
           (towns_request (limited 1 1000) 0)).
  - intros k. cbn. lia.
  - split; cbn; constructor.
Defined.

(** ** The public methods *)

(** Every public method builds its URL object and hands it to [get] with
    the default budget, then parses what [get] returns. *)
Lemma perform_shape (env : Env) (c : Call) (w : World) :
  ∃ l w4,
    perform env c w = (get env l default_retryCount ≫= Response_json) w4
    ∧ heap w4 !!! l
      = {| href := BASE_URL +:+ "/" +:+ serverStr (this w) +:+ "/" +:+ resource_of c;
           searchParams := params_of c |}
    ∧ net w4 = net w ∧ this w4 = this w ∧ console w4 = console w
    ∧ clock w4 = clock w ∧ timers w4 = timers w.
Proof.
  exists (fresh (dom (heap w))).
  destruct c; eexists; (split; [cbv delta [perform location] beta iota zeta; reflexivity|]);
    cbn [heap set_heap net this console clock timers];
    rewrite !lookup_total_insert_eq; done.
Qed.

Lemma get_rec_answers (env : Env) (url : loc) (fuel : nat) (retryCount : Z)
    (w : World) :
  ∃ new,
    net (get_rec env fuel url retryCount w).2 = net w ++ new
    ∧ ∀ k x, new !! k = Some x →
        outcome x = fetch_outcome env (length (net w) + k) (requested x).
Proof.
  revert fuel retryCount w.
  apply (get_rec_cases env url (λ fuel r w res,
    ∃ new, net res.2 = net w ++ new
      ∧ ∀ k x, new !! k = Some x →
          outcome x = fetch_outcome env (length (net w) + k) (requested x)));
    intros;
    match goal with H : rateLimit ?w0 = _ |- _ =>
      pose proof (rateLimit_frame w0) as (_ & Hnet & _);
      rewrite H in * end;
    cbn [fst snd] in *.
  - exists []. rewrite app_nil_r. split; [done|]. by intros k x ?.
  - eexists [_]. cbn. rewrite Hnet. split; [done|].
    intros [|k] x Hx; [|done]. injection Hx as <-. cbn.
    unfold attempt_outcome. by rewrite Hnet, Nat.add_0_r.
  - eexists [_]. cbn. rewrite Hnet. split; [done|].
    intros [|k] x Hx; [|done]. injection Hx as <-. cbn.
    unfold attempt_outcome. by rewrite Hnet, Nat.add_0_r.
  - eexists [_]. cbn. rewrite Hnet. split; [done|].
    intros [|k] x Hx; [|done]. injection Hx as <-. cbn.
    unfold attempt_outcome. by rewrite Hnet, Nat.add_0_r.
  - match goal with IH : ∃ _, _ |- _ => destruct IH as (new & Hnew & Hall) end.
    cbn in Hnew, Hall. eexists (_ :: new). rewrite Hnew, Hnet, <- app_assoc.
    split; [done|]. intros [|k] x Hx.
    + injection Hx as <-. cbn. unfold attempt_outcome. by rewrite Hnet, Nat.add_0_r.
    + cbn in Hx. rewrite (Hall k x Hx), length_app, Hnet. cbn.
      by replace (length (net w) + 1 + k)%nat with (length (net w) + S k)%nat by lia.
Qed.

(** With a positive quota [get] makes a first network call, answered as
    the environment answers the address it requests. *)
Lemma get_first_answer (env : Env) (url : loc) (retryCount : Z) (w : World) :
  1 <= maxRequestsPerWindow (this w) →
  ∃ first,
    net (get env url retryCount w).2 !! length (net w) = Some first
    ∧ outcome first = fetch_outcome env (length (net w)) (requested first).
Proof.
  unfold get. intros Hpos.
  destruct (get_rec_outcome env url (Z.to_nat retryCount) retryCount w)
    as (new & Hnew & Hend).
  destruct (get_rec_answers env url (Z.to_nat retryCount) retryCount w)
    as (new' & Hnew' & Hanswers).
  rewrite Hnew in Hnew'. apply app_inv_head in Hnew' as <-.
  pose proof (get_total env url retryCount w) as Htotal. unfold get in Htotal.
  assert (new ≠ []) as Hsome.
  { destruct (get_rec env (Z.to_nat retryCount) url retryCount w).1
      as [response|e|]; [| |done].
    - destruct Hend as (prev & x & -> & _). by destruct prev.
    - destruct Hend as [(prev & x & -> & _)|(_ & ? & _)]; [by destruct prev|lia]. }
  destruct new as [|first new]; [done|]. exists first.
  rewrite Hnew, lookup_app_r, Nat.sub_diag by done. split; [done|].
  rewrite (Hanswers 0%nat first) by done. by rewrite Nat.add_0_r.
Qed.

Lemma perform_requests (env : Env) (c : Call) (w : World) :
  ∃ new,
    net (perform env c w).2 = net w ++ new
    ∧ ∀ k x, new !! k = Some x →
        ∃ vs, length vs = S k
              ∧ requested x =
                URL_toString
                  {| href := BASE_URL +:+ "/" +:+ serverStr (this w) +:+ "/"
                             +:+ resource_of c;
                     searchParams :=
                       params_of c ++ map (pair "no-cache-please") vs |}.
Proof.
  destruct (perform_shape env c w) as (l & w4 & -> & Hu & Hnet & _).
  rewrite run_then_json.
  destruct (get_attempts env l default_retryCount w4) as [ts Hts].
  destruct (attempts_of_requests _ _ _ _ _ Hts) as (new & Hnew & Hlen & Hreq).
  exists new. rewrite Hnew, Hnet. split; [done|]. intros k x Hx.
  exists (take (S k) (generated env w4 ts)). split.
  - rewrite length_take. unfold generated. rewrite length_imap.
    apply lookup_lt_Some in Hx. lia.
  - by rewrite (Hreq _ _ Hx), Hu.
Qed.

(** X11.  Every request of a public method goes to the method's resource
    under [BASE_URL/serverStr/], with the method's own parameters first
    and, on the k-th request of the call, exactly k cache-busting
    parameters after them. *)
Theorem endpoint_requests (env : Env) (c : Call) (w : World) :
  ∃ new,
    net (perform env c w).2 = net w ++ new
    ∧ ∀ k x, new !! k = Some x →
        ∃ vs, length vs = S k
              ∧ requested x =
                URL_toString
                  {| href := BASE_URL +:+ "/" +:+ serverStr (this w) +:+ "/"
                             +:+ resource_of c;
                     searchParams :=
                       params_of c ++ map (pair "no-cache-please") vs |}.
Proof. exact (perform_requests env c w). Qed.

(** X12.  With a positive quota, when the first network call of a public
    method is answered with any status other than 504, an error status
    included, the method makes no other call and its result is the
    parsed body of that answer, or the [SyntaxError] of parsing it when
    the body is not JSON: the status is not looked at. *)
Theorem endpoints_return_any_status (env : Env) (c : Call) (w : World)
    (response : Response) :
  1 <= maxRequestsPerWindow (this w) →
  (∀ address, fetch_outcome env (length (net w)) address = Resolved response) →
  status response ≠ 504 →
  (perform env c w).1
  = match json response with
    | Some body => Normal body
    | None => Throw SyntaxError_json
    end
  ∧ length (net (perform env c w).2) = S (length (net w)).
Proof.
  intros Hpos Hanswer Hstatus.
  destruct (perform_shape env c w) as (l & w4 & -> & _ & Hnet & Hthis & _).
  destruct (get_first_answer env l default_retryCount w4) as (first & Hfirst & Hout);
    [by rewrite Hthis|].
  rewrite Hnet, Hanswer in Hout.
  destruct (get_exchange_ends_call env l default_retryCount w4 (length (net w4)) first)
    as [_ Hok]; [lia|done|].
  destruct (Hok response Hout Hstatus) as [Hres Hlen].
  rewrite run_then_json, <- Hlen, Hnet. split; [|done].
  rewrite run_bind.
  destruct (get env l default_retryCount w4) as [res w5]. cbn in Hres. subst res.
  unfold Response_json. by destruct (json response).
Qed.

Lemma endpoints_return_any_status_witness :
  let not_found :=
    {| fetch_outcome := λ _ _, Resolved {| status := 404; json := Some "[]" |};
       fetch_latency := λ _, 40;
       random_digits := λ _, "0.53" |} in
  let w := fresh_world (constructor None) 1700000000000 in
  (perform not_found (call_town ["Atlantis"]) w).1 = Normal "[]"
  ∧ length (net (perform not_found (call_town ["Atlantis"]) w).2) = S (length (net w)).
Proof.
  apply (endpoints_return_any_status
           {| fetch_outcome := λ _ _, Resolved {| status := 404; json := Some "[]" |};
              fetch_latency := λ _, 40;
              random_digits := λ _, "0.53" |}
           (call_town ["Atlantis"])
           (fresh_world (constructor None) 1700000000000)
           {| status := 404; json := Some "[]" |}).
  - vm_compute. discriminate.
  - reflexivity.
  - cbn. lia.
Defined.

(** X13.  A call of a public method completes, normally or by throwing,
    after at most four network calls, changes neither the server name nor
    the quota nor the window of the client, and with a positive quota
    makes at least one network call. *)
Theorem endpoint_attempts_bounded (env : Env) (c : Call) (w : World) :
  (perform env c w).1 ≠ OutOfFuel
  ∧ (length (net (perform env c w).2) ≤ length (net w) + 4)%nat
  ∧ serverStr (this (perform env c w).2) = serverStr (this w)
  ∧ maxRequestsPerWindow (this (perform env c w).2) = maxRequestsPerWindow (this w)
  ∧ windowSize (this (perform env c w).2) = windowSize (this w)
  ∧ (1 <= maxRequestsPerWindow (this w) →
     (length (net w) < length (net (perform env c w).2))%nat).
Proof.
  destruct (perform_shape env c w) as (l & w4 & -> & _ & Hnet & Hthis & _).
  pose proof (get_total env l default_retryCount w4) as Htotal.
  pose proof (get_rec_attempt_bound env (Z.to_nat default_retryCount) l
                default_retryCount w4) as Hbound.
  destruct (get_rec_frame env l (Z.to_nat default_retryCount) default_retryCount w4)
    as (_ & Hs & Hm & Hw & _).
  rewrite run_then_json. fold (get env l default_retryCount w4) in Hbound, Hs, Hm, Hw.
  rewrite Hnet, Hthis in *. split_and!; try done.
  - rewrite run_bind.
    destruct (get env l default_retryCount w4) as [[response|e|] w5]; [|done|done].
    unfold Response_json. by destruct (json response).
  - change (Z.to_nat default_retryCount) with 3%nat in Hbound. lia.
  - intros Hpos.
    destruct (get_first_answer env l default_retryCount w4) as (first & Hfirst & _);
      [by rewrite Hthis|].
    apply lookup_lt_Some in Hfirst. by rewrite Hnet in Hfirst.
Qed.

(** ** What the limiter does guarantee *)

(** X14.  With the queue in order and a positive window, a call that
    finds the quota not yet used up returns at once, and the queue it
    leaves holds at most the quota of records, every one of them stamped
    inside the window that ends at the time of the call. *)
Theorem call_let_through_respects_window (w : World) :
  queue_in_order w →
  0 < windowSize (this w) →
  Z.of_nat (length (kept w)) < maxRequestsPerWindow (this w) →
  (rateLimit w).1 = Normal tt
  ∧ clock (rateLimit w).2 = clock w
  ∧ timers (rateLimit w).2 = timers w
  ∧ Z.of_nat (length (requestQueue (this (rateLimit w).2)))
    <= maxRequestsPerWindow (this w)
  ∧ ∀ req, req ∈ requestQueue (this (rateLimit w).2) →
      clock w - windowSize (this w) < timestamp req <= clock w.
Proof.
  intros Hw Hwindow Hlt.
  destruct (kept_in_order w Hw) as [_ Hpast].
  rewrite rateLimit_under_quota by done. cbn -[kept].
  rewrite length_app, app_nil_r. cbn [length].
  split_and!; [done|lia|done|lia|].
  intros req [Hreq|Hreq]%elem_of_app.
  - eapply Forall_forall in Hpast; [|done].
    unfold kept in Hreq. apply list_elem_of_filter in Hreq as [? _]. lia.
  - apply list_elem_of_singleton in Hreq as ->. cbn. lia.
Qed.

Lemma call_let_through_respects_window_witness :
  let w := fresh_world
             (set_requestQueue [{| timestamp := 0 |}; {| timestamp := 250 |}]
                (limited 2 1000)) 1100 in
  (rateLimit w).1 = Normal tt
  ∧ clock (rateLimit w).2 = clock w
  ∧ timers (rateLimit w).2 = timers w
  ∧ Z.of_nat (length (requestQueue (this (rateLimit w).2)))
    <= maxRequestsPerWindow (this w)
  ∧ ∀ req, req ∈ requestQueue (this (rateLimit w).2) →
      clock w - windowSize (this w) < timestamp req <= clock w.
Proof.
  apply (call_let_through_respects_window
           (fresh_world
              (set_requestQueue [{| timestamp := 0 |}; {| timestamp := 250 |}]
                 (limited 2 1000)) 1100)).
  - split; cbn; repeat constructor; unfold stamped_before; cbn; lia.
  - cbn. lia.
  - vm_compute. reflexivity.
Defined.

(** ** A quota that is not positive *)

(** X15.  On a client whose quota is zero or negative and whose queue is
    empty, every public method throws the [TypeError] of reading
    [requestQueue[0].timestamp], without any network call, and leaves
    the queue empty: the next call fares the same. *)
Theorem nonpositive_quota_always_throws (env : Env) (c : Call) (w : World) :
  maxRequestsPerWindow (this w) <= 0 →
  requestQueue (this w) = [] →
  (perform env c w).1 = Throw (TypeError_undefined "timestamp")
  ∧ net (perform env c w).2 = net w
  ∧ requestQueue (this (perform env c w).2) = []
  ∧ maxRequestsPerWindow (this (perform env c w).2) = maxRequestsPerWindow (this w).
Proof.
  intros Hquota Hempty.
  destruct (perform_shape env c w) as (l & w4 & -> & _ & Hnet & Hthis & _).
  assert (kept w4 = []) as Hkept by (unfold kept; by rewrite Hthis, Hempty).
  rewrite run_bind. unfold get. rewrite get_rec_unfold.
  rewrite rateLimit_empty_queue by (rewrite ?Hkept, ?Hthis; cbn; (done || lia)).
  cbn. by rewrite Hnet, Hthis.
Qed.

Lemma nonpositive_quota_always_throws_witness :
  let w := fresh_world (limited 0 1000) 1700000000000 in
  (perform quiet_env call_players w).1 = Throw (TypeError_undefined "timestamp")
  ∧ net (perform quiet_env call_players w).2 = net w
  ∧ requestQueue (this (perform quiet_env call_players w).2) = []
  ∧ maxRequestsPerWindow (this (perform quiet_env call_players w).2)
    = maxRequestsPerWindow (this w).
Proof.
  apply (nonpositive_quota_always_throws quiet_env call_players
           (fresh_world (limited 0 1000) 1700000000000)).
  - cbn. lia.
  - reflexivity.
Defined.

(** ** A gateway that stays down *)

(** X16.  With a positive quota, when every network call is answered
    504, a public method makes four network calls, writes three retry
    notices, and then parses the last 504 answer like any other: its
    result is that body, or the [SyntaxError] of parsing it. *)
Theorem gateway_down_ends_in_parse (env : Env) (c : Call) (w : World) :
  always_504 env →
  1 <= maxRequestsPerWindow (this w) →
  ∃ response,
    status response = 504
    ∧ outcome <$> last (net (perform env c w).2) = Some (Resolved response)
    ∧ (perform env c w).1
      = match json response with
        | Some body => Normal body
        | None => Throw SyntaxError_json
        end
    ∧ length (net (perform env c w).2) = (length (net w) + 4)%nat
    ∧ console (perform env c w).2 = console w ++ replicate 3 retry_notice.
Proof.
  intros H504 Hpos.
  destruct (perform_shape env c w) as (l & w4 & -> & _ & Hnet & Hthis & Hcon & _).
  destruct (get_rec_always_504 env 3 l w4 H504) as (response & Hres & Hst & Hlast & Hlen);
    [by rewrite Hthis|].
  destruct (get_rec_outcome env l 3 3 w4) as (new & Hnew & Hend).
  change (get_rec env 3 l (Z.of_nat 3) w4) with (get env l default_retryCount w4) in *.
  change (get_rec env 3 l 3 w4) with (get env l default_retryCount w4) in *.
  rewrite Hres in Hend. destruct Hend as (prev & x & -> & _ & _ & _ & _ & Hlog).
  rewrite Hnew, !length_app in Hlen. cbn in Hlen.
  assert (length prev = 3%nat) as Hthree by lia.
  exists response. rewrite run_then_json, Hlast, Hnew, !length_app, Hlog, Hthree, Hnet, Hcon.
  split_and!; [done|done| |cbn; lia|done].
  rewrite run_bind.
  destruct (get env l default_retryCount w4) as [res w5]. cbn in Hres. subst res.
  unfold Response_json. by destruct (json response).
Qed.

Lemma gateway_down_ends_in_parse_witness :
  let w := fresh_world (constructor None) 1700000000000 in
  ∃ response,
    status response = 504
    ∧ outcome <$> last (net (perform gateway_down call_server w).2)
      = Some (Resolved response)
    ∧ (perform gateway_down call_server w).1
      = match json response with
        | Some body => Normal body
        | None => Throw SyntaxError_json
        end
    ∧ length (net (perform gateway_down call_server w).2) = (length (net w) + 4)%nat
    ∧ console (perform gateway_down call_server w).2
      = console w ++ replicate 3 retry_notice.
Proof.
  apply (gateway_down_ends_in_parse gateway_down call_server
           (fresh_world (constructor None) 1700000000000)).
  - intros k address. exists gateway_timeout. by split.
  - vm_compute. discriminate.
Defined.

(** ** Detail methods and list methods *)

Lemma append_inv_head (s a b : string) : s +:+ a = s +:+ b → a = b.
Proof. induction s as [|c s IH]; simpl; [done|]. intros [= ?]. by apply IH. Qed.

Lemma append_assoc (a b c : string) : (a +:+ b) +:+ c = a +:+ b +:+ c.
Proof.
  induction a as [|x a IH]; [done|].
  change (String x ((a +:+ b) +:+ c) = String x (a +:+ b +:+ c)). by rewrite IH.
Qed.

(** An address with parameters shows the name of the first one right
    after the question mark. *)
Lemma URL_toString_first_param (h name value : string)
    (rest : list (string * string)) :
  ∃ tail,
    URL_toString {| href := h; searchParams := (name, value) :: rest |}
    = h +:+ "?" +:+ urlencode name +:+ "=" +:+ tail.
Proof.
  unfold URL_toString, URLSearchParams_toString. cbn [searchParams href map fst snd].
  destruct (map _ rest) as [|p ps]; cbn [String.concat].
  - by eexists.
  - eexists. by rewrite !append_assoc.
Qed.

Lemma perform_serverStr (env : Env) (c : Call) (w : World) :
  serverStr (this (perform env c w).2) = serverStr (this w).
Proof.
  destruct (perform_shape env c w) as (l & w4 & -> & _ & _ & Hthis & _).
  destruct (get_rec_frame env l (Z.to_nat default_retryCount) default_retryCount w4)
    as (_ & Hs & _).
  rewrite run_then_json. fold (get env l default_retryCount w4) in Hs.
  by rewrite Hs, Hthis.
Qed.

(** Every call of a session is made on the client the session started
    with, as far as its server name goes. *)
Lemma session_lookup (env : Env) (calls : list (Z * Call)) (w : World)
    (i : nat) (c : Call) (sent : list Exchange) :
  session env calls w !! i = Some (c, sent) →
  ∃ w1, serverStr (this w1) = serverStr (this w) ∧ sent = requests_of env c w1.
Proof.
  revert w i. induction calls as [|[pause c'] calls IH]; intros w i; [done|].
  destruct i as [|i]; cbn [session lookup list_lookup].
  - intros [= <- <-]. by exists (elapse pause w).2.
  - intros Hi. destruct (IH _ _ Hi) as (w1 & Hs & ->). exists w1. split; [|done].
    by rewrite Hs, perform_serverStr.
Qed.

Lemma requests_of_shape (env : Env) (c : Call) (w : World) (x : Exchange) :
  x ∈ requests_of env c w →
  ∃ vs, vs ≠ []
        ∧ requested x =
          URL_toString
            {| href := BASE_URL +:+ "/" +:+ serverStr (this w) +:+ "/"
                       +:+ resource_of c;
               searchParams := params_of c ++ map (pair "no-cache-please") vs |}.
Proof.
  unfold requests_of.
  destruct (perform_requests env c w) as (new & -> & Hreq).
  rewrite drop_app_length. intros [k Hx]%list_elem_of_lookup.
  destruct (Hreq _ _ Hx) as (vs & Hlen & ->). exists vs. split; [|done].
  by destruct vs.
Qed.

(** A call that attaches parameters of its own and a call that attaches
    none never request the same address of one server. *)
Lemma requests_differ (env : Env) (c1 c2 : Call) (w1 w2 : World)
    (x y : Exchange) :
  serverStr (this w1) = serverStr (this w2) →
  params_of c1 ≠ [] →
  params_of c2 = [] →
  x ∈ requests_of env c1 w1 →
  y ∈ requests_of env c2 w2 →
  requested x ≠ requested y.
Proof.
  intros Hs Hown Hnone Hx Hy.
  destruct (requests_of_shape _ _ _ _ Hx) as (vs1 & _ & ->).
  destruct (requests_of_shape _ _ _ _ Hy) as (vs2 & Hvs2 & ->).
  destruct vs2 as [|v vs2]; [done|]. rewrite Hs, Hnone. cbn [app map].
  destruct (URL_toString_first_param
              (BASE_URL +:+ "/" +:+ serverStr (this w2) +:+ "/" +:+ resource_of c2)
              "no-cache-please" v (map (pair "no-cache-please") vs2))
    as [t2 ->].
  destruct c1; cbn [params_of app] in Hown |- *; try done;
    match goal with
    | |- URL_toString {| href := ?h; searchParams := (?name, ?value) :: ?rest |} ≠ _ =>
        destruct (URL_toString_first_param h name value rest) as [t1 ->]
    end;
    destruct c2; try discriminate Hnone;
    cbn [resource_of]; rewrite !append_assoc; intros Heq;
    do 4 apply append_inv_head in Heq;
    vm_compute in Heq; discriminate Heq.
Qed.

(** X17.  In a session of one client, whatever was called before and
    however long ago, a method that attaches parameters of its own never
    requests an address that a method attaching none requests: so
    [nation], [town], [player] and [quarter], which always send a
    [query] parameter, even when called without identifiers, never
    request an address that [nations], [towns], [players] or [quarters]
    requests. *)
Theorem detail_and_list_requests_differ (env : Env) (calls : list (Z * Call))
    (w : World) (i j : nat) (c1 c2 : Call) (sent1 sent2 : list Exchange)
    (x y : Exchange) :
  session env calls w !! i = Some (c1, sent1) →
  session env calls w !! j = Some (c2, sent2) →
  params_of c1 ≠ [] →
  params_of c2 = [] →
  x ∈ sent1 →
  y ∈ sent2 →
  requested x ≠ requested y.
Proof.
  intros Hi Hj Hown Hnone Hx Hy.
  destruct (session_lookup _ _ _ _ _ _ Hi) as (w1 & Hs1 & ->).
  destruct (session_lookup _ _ _ _ _ _ Hj) as (w2 & Hs2 & ->).
  apply (requests_differ env c1 c2 w1 w2); [congruence|done..].
Qed.

Lemma detail_and_list_requests_differ_witness :
  let w := fresh_world (constructor None) 1700000000000 in
  let calls := [(0, call_towns); (250, call_town []); (250, call_towns)] in
  ∃ x y z,
    session quiet_env calls w
    = [(call_towns, [x]); (call_town [], [y]); (call_towns, [z])]
    ∧ requested y ≠ requested x
    ∧ requested y ≠ requested z.
Proof.
  eexists _, _, _. split; [vm_compute; reflexivity|]. split.
  - match goal with
    | |- requested ?a ≠ requested ?b =>
        apply (detail_and_list_requests_differ quiet_env
                 [(0, call_towns); (250, call_town []); (250, call_towns)]
                 (fresh_world (constructor None) 1700000000000)
                 1 0 (call_town []) call_towns [a] [b] a b)
    end;
      [vm_compute; reflexivity|vm_compute; reflexivity|done|done
      |apply list_elem_of_here|apply list_elem_of_here].
  - match goal with
    | |- requested ?a ≠ requested ?b =>
        apply (detail_and_list_requests_differ quiet_env
                 [(0, call_towns); (250, call_town []); (250, call_towns)]
                 (fresh_world (constructor None) 1700000000000)
                 1 2 (call_town []) call_towns [a] [b] a b)
    end;
      [vm_compute; reflexivity|vm_compute; reflexivity|done|done
      |apply list_elem_of_here|apply list_elem_of_here].
Defined.

(** ** The URL object across the retries of [get] *)

(** How the network calls [new] of a run of [get] with a positive quota
    follow one another: there is a last one, every one before it was
    answered 504, and the last one was not answered 504 with budget
    left. *)
Lemma get_calls_chain (env : Env) (url : loc) (retryCount : Z) (w : World)
    (new : list Exchange) :
  1 <= maxRequestsPerWindow (this w) →
  net (get env url retryCount w).2 = net w ++ new →
  ∃ prev x,
    new = prev ++ [x]
    ∧ Forall answered_504 prev
    ∧ (answered_504 x → retryCount <= Z.of_nat (length prev)).
Proof.
  unfold get. intros Hpos Hnew.
  destruct (get_rec_outcome env url (Z.to_nat retryCount) retryCount w)
    as (new' & Hnew' & Hend).
  rewrite Hnew in Hnew'. apply app_inv_head in Hnew' as <-.
  pose proof (get_total env url retryCount w) as Htotal. unfold get in Htotal.
  destruct (get_rec env (Z.to_nat retryCount) url retryCount w).1
    as [response|e|]; [| |done].
  - destruct Hend as (prev & x & -> & Hx & Hprev & _ & Hspent & _).
    exists prev, x. split_and!; [done|done|].
    intros (response' & Hx' & H504). rewrite Hx in Hx'. injection Hx' as <-.
    specialize (Hspent H504). lia.
  - destruct Hend as [(prev & x & -> & Hx & Hprev & _)|(_ & ? & _)]; [|lia].
    exists prev, x. split_and!; [done|done|].
    intros (response' & Hx' & _). by rewrite Hx in Hx'.
Qed.

(** C10.  With a positive quota, [get] makes a first network attempt, and
    every attempt answered 504 with budget left is followed by another,
    made on the same URL object with one more [no-cache-please]
    parameter appended and none removed; no attempt follows one that
    was not answered 504.  So the k-th attempt (k = 1, 2, ...) requests
    the address of the caller's URL followed by the values of attempts
    1..k in that order, exactly k such parameters when the caller's URL
    had none, and the object is left with one parameter per attempt. *)
Theorem get_accumulates_cache_busters (env : Env) (url : loc) (retryCount : Z)
    (w : World) :
  1 <= maxRequestsPerWindow (this w) →
  ∃ (ts : list Z) (new : list Exchange),
    let u := heap w !!! url in
    let vs := generated env w ts in
    heap (get env url retryCount w).2 !!! url = with_cache_busters u vs
    ∧ net (get env url retryCount w).2 = net w ++ new
    ∧ length new = length vs
    ∧ new ≠ []
    ∧ (∀ k x, new !! k = Some x →
         let sent := with_cache_busters u (take (S k) vs) in
         requested x = URL_toString sent
         ∧ cache_busters sent = cache_busters u ++ take (S k) vs
         ∧ length (take (S k) vs) = S k
         ∧ (cache_busters u = [] → length (cache_busters sent) = S k))
    ∧ (∀ k x, new !! k = Some x → answered_504 x → Z.of_nat k < retryCount →
         ∃ y v,
           new !! S k = Some y
           ∧ vs !! S k = Some v
           ∧ requested y
             = URL_toString
                 (URL_append "no-cache-please" v
                    (with_cache_busters u (take (S k) vs))))
    ∧ (∀ k x, new !! k = Some x → is_Some (new !! S k) → answered_504 x).
Proof.
  intros Hpos.
  destruct (get_attempts env url retryCount w) as [ts Hts].
  destruct (attempts_of_requests _ _ _ _ _ Hts) as (new & Hnew & Hlen & Hreq).
  destruct (get_calls_chain env url retryCount w new Hpos Hnew)
    as (prev & last & Hchain & Hprev & Hlast).
  exists ts, new. cbn zeta.
  assert (length (generated env w ts) = length ts) as Hgen
    by apply length_imap.
  assert (length new = S (length prev)) as Hcount
    by (rewrite Hchain, length_app; cbn; lia).
  split_and!; [apply Hts|done|congruence|by destruct new| | |].
  - intros k x Hx.
    assert (length (take (S k) (generated env w ts)) = S k) as Htake.
    { rewrite length_take. apply lookup_lt_Some in Hx. lia. }
    split_and!; [by apply Hreq|apply cache_busters_with|done|].
    intros Hnone. by rewrite cache_busters_with, Hnone.
  - intros k x Hx H504 Hbudget.
    assert (k < length prev)%nat as Hk.
    { destruct (decide (k < length prev)%nat) as [|Hge]; [done|].
      apply lookup_lt_Some in Hx as Hlt.
      assert (k = length prev) as -> by lia.
      rewrite Hchain, lookup_app_r, Nat.sub_diag in Hx by done.
      injection Hx as <-. specialize (Hlast H504). lia. }
    destruct (lookup_lt_is_Some_2 new (S k)) as [y Hy]; [lia|].
    destruct (lookup_lt_is_Some_2 (generated env w ts) (S k)) as [v Hv]; [lia|].
    exists y, v. split_and!; [done|done|].
    rewrite (Hreq _ _ Hy). unfold kth_address.
    by rewrite (take_S_r _ _ _ Hv), with_cache_busters_snoc.
  - intros k x Hx [y Hy]. apply lookup_lt_Some in Hy.
    rewrite Hchain, lookup_app_l in Hx by lia.
    by eapply Forall_lookup_1 in Hprev.
Qed.

Lemma get_accumulates_cache_busters_witness :
  let w := towns_request (constructor None) 1700000000000 in
  ∃ (ts : list Z) (new : list Exchange),
    let u := heap w !!! 0%nat in
    let vs := generated gateway_down w ts in
    heap (get gateway_down 0%nat 3 w).2 !!! 0%nat = with_cache_busters u vs
    ∧ net (get gateway_down 0%nat 3 w).2 = net w ++ new
    ∧ length new = length vs
    ∧ new ≠ []
    ∧ (∀ k x, new !! k = Some x →
         let sent := with_cache_busters u (take (S k) vs) in
         requested x = URL_toString sent
         ∧ cache_busters sent = cache_busters u ++ take (S k) vs
         ∧ length (take (S k) vs) = S k
         ∧ (cache_busters u = [] → length (cache_busters sent) = S k))
    ∧ (∀ k x, new !! k = Some x → answered_504 x → Z.of_nat k < 3 →
         ∃ y v,
           new !! S k = Some y
           ∧ vs !! S k = Some v
           ∧ requested y
             = URL_toString
                 (URL_append "no-cache-please" v
                    (with_cache_busters u (take (S k) vs))))
    ∧ (∀ k x, new !! k = Some x → is_Some (new !! S k) → answered_504 x).
Proof.
  apply (get_accumulates_cache_busters gateway_down 0%nat 3
           (towns_request (constructor None) 1700000000000)).
  vm_compute. discriminate.
Defined.
